(** * Tekspot LinkedIn automation: the image request pipeline

    A shallow embedding of [services/image_gen.py] and of the part of
    [config.py] it uses.  Python strings are lists of Unicode code points,
    byte strings are lists of bytes, duck-typed attributes are a three-valued
    type (absent, [None], a value), and the outside world (file system,
    installed packages, remote service, clock) is an oracle record whose
    answers the pipeline consumes while it logs every external operation. *)

From Stdlib Require Import List NArith ZArith Bool Lia.
From Stdlib Require Import Strings.String Strings.Ascii Strings.Byte.
From Stdlib Require Import DecimalString Sorting.Permutation Sorting.Sorted.
From Stdlib Require Import DecimalPos DecimalZ.
Import ListNotations.

Local Open Scope N_scope.

(** ** Python strings *)

Module PyStr.

(** A [str] is a sequence of code points. *)
Definition pystr := list N.

(** A source-level string literal (all literals of the module are ASCII, but
    for one dash that is spliced by its code point). *)
Definition lit (s : string) : pystr :=
  map N_of_ascii (list_ascii_of_string s).

Definition pystr_eqb (a b : pystr) : bool :=
  if list_eq_dec N.eq_dec a b then true else false.

(** Truthiness of a sequence: non-empty. *)
Definition truthy {A} (s : list A) : bool :=
  match s with [] => false | _ => true end.

(** [str.isspace] on one code point: the white space of the Unicode
    character database as CPython tables it. *)
Definition isspace (c : N) : bool :=
  ((9 <=? c) && (c <=? 13)) || ((28 <=? c) && (c <=? 32))
  || (c =? 133) || (c =? 160) || (c =? 5760)
  || ((8192 <=? c) && (c <=? 8202))
  || (c =? 8232) || (c =? 8233) || (c =? 8239) || (c =? 8287)
  || (c =? 12288).

Fixpoint lstrip (s : pystr) : pystr :=
  match s with
  | [] => []
  | c :: s' => if isspace c then lstrip s' else s
  end.

Definition rstrip (s : pystr) : pystr := rev (lstrip (rev s)).

(** [s.strip()] *)
Definition strip (s : pystr) : pystr := rstrip (lstrip s).

(** [s.split()] with no separator: the maximal runs of characters that are
    not white space, in order; no empty token. *)
Fixpoint split (s : pystr) : list pystr :=
  match s with
  | [] => []
  | c :: s' =>
      if isspace c then split s'
      else match s' with
           | [] => [[c]]
           | d :: _ =>
               if isspace d then [c] :: split s'
               else match split s' with
                    | w :: ws => (c :: w) :: ws
                    | [] => [[c]]
                    end
           end
  end.

(** [sep.join(ws)] *)
Fixpoint join (sep : pystr) (ws : list pystr) : pystr :=
  match ws with
  | [] => []
  | w :: ws' =>
      match ws' with
      | [] => w
      | _ :: _ => w ++ sep ++ join sep ws'
      end
  end.

(** [str(n)] for an [int]. *)
Definition str_of_int (z : Z) : pystr :=
  lit (NilZero.string_of_int (Z.to_int z)).

(** ASCII part of [str.isalnum]. *)
Definition ascii_isalnum (c : N) : bool :=
  ((48 <=? c) && (c <=? 57)) || ((65 <=? c) && (c <=? 90))
  || ((97 <=? c) && (c <=? 122)).

(** ASCII part of [str.lower] on one code point. *)
Definition lower_char (c : N) : N :=
  if (65 <=? c) && (c <=? 90) then c + 32 else c.

Definition lower (s : pystr) : pystr := map lower_char s.

(** A token: what [split] produces. *)
Definition word (w : pystr) : Prop :=
  w <> [] /\ forallb (fun c => negb (isspace c)) w = true.

Definition blank (s : pystr) : Prop := Forall (fun c => isspace c = true) s.

End PyStr.
Import PyStr.

(** ** Exceptions, external operations and the effect monad *)

Definition bytes := list byte.
Definition path := pystr.

(** [d / name] for a relative, single-component [name]. *)
Definition path_join (d : path) (name : pystr) : path := d ++ lit "/" ++ name.

(** A raised exception: its class and [str(e)]. *)
Record exn := Exn { exn_type : string; exn_str : pystr }.

Inductive Res (A : Type) : Type :=
| Ok (a : A)
| Raise (e : exn).
Arguments Ok {A} a.
Arguments Raise {A} e.

(** A decoded reference image (RGB pixel data, opaque to the pipeline). *)
Inductive image := RGBImage (pixels : bytes).

(** One element of the [contents] list sent to the remote service. *)
Inductive content_item :=
| Text (s : pystr)
| Img (i : image).

(** External operations, logged in the order the pipeline performs them. *)
Inductive event :=
| EvMkdir (p : path)
| EvExists (p : path)
| EvImport (module : string)
| EvIterdir (p : path)
| EvStat (name : pystr)
| EvImageOpen (name : pystr)
| EvClient (api_key : pystr)
| EvGenerate (model : pystr) (contents : list content_item)
| EvClock
| EvImageSave (p : path) (data : bytes).

(** A computation: the operations performed, and a value or the exception
    that ended it. *)
Definition M (A : Type) : Type := (list event * Res A)%type.

Definition ret {A} (a : A) : M A := ([], Ok a).
Definition raise {A} (e : exn) : M A := ([], Raise e).
Definition emit (ev : event) : M unit := ([ev], Ok tt).
Definition lift {A} (r : Res A) : M A := ([], r).

Definition bind {A B} (m : M A) (k : A -> M B) : M B :=
  match m with
  | (t, Ok a) => let (t', r) := k a in (t ++ t', r)
  | (t, Raise e) => (t, Raise e)
  end.

(** [try: m  except Exception as e: h e] *)
Definition try_except {A} (m : M A) (h : exn -> M A) : M A :=
  match m with
  | (t, Ok a) => (t, Ok a)
  | (t, Raise e) => let (t', r) := h e in (t ++ t', r)
  end.

Declare Scope py_scope.
Delimit Scope py_scope with py.
Notation "x <- m ;; k" := (bind m (fun x => k))
  (at level 61, m at next level, right associativity) : py_scope.
Notation "m ;;; k" := (bind m (fun _ => k))
  (at level 61, right associativity) : py_scope.
Local Open Scope py_scope.

(** ** Duck-typed values *)

(** What [hasattr]/[getattr] find under a name. *)
Inductive attr (A : Type) : Type :=
| NoAttr
| PyNone
| Has (a : A).
Arguments NoAttr {A}.
Arguments PyNone {A}.
Arguments Has {A} a.

(** [getattr(o, name, None)] *)
Definition getattr_none {A} (a : attr A) : option A :=
  match a with Has v => Some v | _ => None end.

(** The payload of an inline blob: [bytes] or text. *)
Inductive pydata :=
| PyBytes (b : bytes)
| PyStr (s : pystr).

Definition truthy_data (d : pydata) : bool :=
  match d with PyBytes b => truthy b | PyStr s => truthy s end.

(** [a or b] on values that may be [None]. *)
Definition py_or (a b : option pydata) : option pydata :=
  match a with
  | Some d => if truthy_data d then a else b
  | None => b
  end.

(** The object [part.as_image()] returns; [png_save] is what
    [img.save(buf, format="PNG"); buf.getvalue()] gives. *)
Record GenImage := { png_save : Res bytes }.

Record Blob := { blob_data : attr pydata; blob_image_bytes : attr pydata }.

(** [as_image] holds the outcome of calling it: an exception, [None] or an
    image. *)
Record Part := {
  as_image : attr (Res (option GenImage));
  inline_data : attr Blob
}.

Record Content := { content_parts : attr (list Part) }.
Record Candidate := { cand_content : attr Content }.
Record Response := {
  resp_parts : attr (list Part);
  resp_candidates : attr (list Candidate)
}.

(** A directory entry: its name, what [stat().st_mtime] gives (finite floats,
    a total order, embedded as integers) and what
    [Image.open(f).convert("RGB")] gives. *)
Record DirEntry := {
  f_name : pystr;
  f_mtime : Res Z;
  f_open : Res image
}.

(** ** The outside world *)

Record Env := {
  (* [os.getenv(name)] after [load_dotenv()] *)
  os_getenv : pystr -> option pystr;
  (* [Path(__file__).resolve().parent] of config.py *)
  BASE_DIR : path;
  (* [p.mkdir(parents=True, exist_ok=True)] *)
  fs_mkdir : path -> Res unit;
  (* [p.exists()] *)
  fs_exists : path -> bool;
  (* [list(p.iterdir())] *)
  fs_iterdir : path -> Res (list DirEntry);
  (* whether [from PIL import Image] succeeds *)
  pil_installed : bool;
  (* whether [from google import genai] and [from google.genai import types]
     succeed *)
  genai_installed : bool;
  (* [str.isalnum] on the code points from 128 on *)
  unicode_isalnum : N -> bool;
  (* [genai.Client(api_key=...)] *)
  genai_Client : pystr -> Res unit;
  (* [types.GenerateContentConfig(...)] with the fixed arguments *)
  genai_GenerateContentConfig : Res unit;
  (* [client.models.generate_content(model=..., contents=..., config=config)] *)
  generate_content : pystr -> list content_item -> Res Response;
  (* [base64.b64decode] on text *)
  b64decode : pystr -> Res bytes;
  (* [int(time.time())] *)
  time_time : Z;
  (* [PILImage.open(BytesIO(data))] *)
  PILImage_open : bytes -> Res image;
  (* [img.save(str(fpath), format="PNG")] *)
  image_save : image -> path -> Res unit
}.

(** ** config.py *)

Definition getenv_default (env : Env) (name : string) (default : pystr) : pystr :=
  match os_getenv env (lit name) with Some v => v | None => default end.

Definition DATA_DIR (env : Env) : path := path_join (BASE_DIR env) (lit "data").
Definition OUTPUT_DIR (env : Env) : path := path_join (BASE_DIR env) (lit "output").
Definition IMAGES_DIR (env : Env) : path := path_join (BASE_DIR env) (lit "images").

Definition GEMINI_API_KEY (env : Env) : pystr :=
  strip (getenv_default env "GEMINI_API_KEY" []).

Definition GEMINI_IMAGE_MODEL (env : Env) : pystr :=
  getenv_default env "GEMINI_IMAGE_MODEL" (lit "gemini-3-pro-image-preview").

Definition mkdir (env : Env) (p : path) : M unit :=
  emit (EvMkdir p) ;;; lift (fs_mkdir env p).

Definition ensure_dirs (env : Env) : M unit :=
  mkdir env (DATA_DIR env) ;;; mkdir env (OUTPUT_DIR env).

(** ** services/image_gen.py *)

Definition TEKSPOT_TEMPLATE : pystr :=
  lit "Professional LinkedIn post graphic for TEKSPOT GLOBAL SOLUTIONS. "
  ++ lit "Match the reference image style exactly: "
  ++ lit "Smooth gradient background from deep purple (left) to teal/light green (right). "
  ++ lit "Include TEKSPOT GLOBAL SOLUTIONS logo in top-left corner (white text, globe icon, clean sans-serif). "
  ++ lit "Minimal text only: one short headline, 5-10 words max. No extra copy, bullet points, or long sentences. "
  ++ lit "Include topic-relevant imagery: visuals, icons, or metaphors that match the theme (e.g., talent/HR: people, teams, handshakes, workforce; tech/IT: computers, digital, recruitment; skills: learning, growth). "
  ++ lit "Left side: headline text. Right side or center: relevant visual element tied to the topic. Clean, corporate, high-end aesthetic. 16:9 aspect ratio.".

(** *** Reference images *)

(** [str.rfind] of one character. *)
Fixpoint rfind (c : N) (s : pystr) : option nat :=
  match s with
  | [] => None
  | d :: s' =>
      match rfind c s' with
      | Some i => Some (S i)
      | None => if d =? c then Some 0%nat else None
      end
  end.

(** [PurePath.suffix] of a final path component. *)
Definition suffix (name : pystr) : pystr :=
  match rfind 46 name with
  | Some i =>
      if (0 <? i)%nat && (i <? List.length name - 1)%nat then skipn i name else []
  | None => []
  end.

Definition supported : list pystr :=
  [lit ".jpg"; lit ".jpeg"; lit ".png"; lit ".webp"].

Definition is_supported (f : DirEntry) : bool :=
  existsb (pystr_eqb (lower (suffix (f_name f)))) supported.

(** [sorted(..., key=..., reverse=True)] on entries paired with their keys:
    descending, and stable (equal keys keep their original order). *)
Fixpoint insert_desc (x : Z * DirEntry) (l : list (Z * DirEntry))
  : list (Z * DirEntry) :=
  match l with
  | [] => [x]
  | y :: l' => if (fst x <? fst y)%Z then y :: insert_desc x l' else x :: l
  end.

Definition sorted_desc (l : list (Z * DirEntry)) : list (Z * DirEntry) :=
  fold_right insert_desc [] l.

(** The key function [lambda x: x.stat().st_mtime] applied to every entry,
    in order, before any comparison. *)
Fixpoint stat_keys (fs : list DirEntry) : M (list (Z * DirEntry)) :=
  match fs with
  | [] => ret []
  | f :: fs' =>
      emit (EvStat (f_name f)) ;;;
      m <- lift (f_mtime f) ;;
      rest <- stat_keys fs' ;;
      ret ((m, f) :: rest)
  end.

(** The loop of lines 45-50: a file that does not decode is skipped. *)
Fixpoint load_loop (fs : list DirEntry) : M (list image) :=
  match fs with
  | [] => ret []
  | f :: fs' =>
      r <- try_except
             (emit (EvImageOpen (f_name f)) ;;;
              img <- lift (f_open f) ;;
              ret (Some img))
             (fun _ => ret None) ;;
      rest <- load_loop fs' ;;
      ret (match r with Some img => img :: rest | None => rest end)
  end.

Definition _load_reference_images (env : Env) (images_dir : option path)
    (max_count : nat) : M (list image) :=
  match images_dir with
  | None => ret []
  | Some d =>
      emit (EvExists d) ;;;
      if negb (fs_exists env d) then ret []
      else
        emit (EvImport "PIL") ;;;
        if negb (pil_installed env) then ret []
        else
          emit (EvIterdir d) ;;;
          entries <- lift (fs_iterdir env d) ;;
          keyed <- stat_keys (filter is_supported entries) ;;
          let files := map snd (sorted_desc keyed) in
          load_loop (firstn max_count files)
  end.

(** *** Prompt *)

(** Lines 73-79. *)
Definition headline (topic : pystr) (hero_copy : option pystr) : pystr :=
  let headline0 :=
    match hero_copy with
    | Some h =>
        if truthy h && truthy (strip h)
        then join (lit " ") (firstn 10 (split (strip h)))
        else []
    | None => []
    end in
  if negb (truthy headline0)
  then join (lit " ") (firstn 8 (split (strip topic)))
  else headline0.

(** Line 81. *)
Definition template (template_description : option pystr) : pystr :=
  match template_description with
  | Some t => if truthy t && truthy (strip t) then strip t else TEKSPOT_TEMPLATE
  | None => TEKSPOT_TEMPLATE
  end.

(** Lines 83-89. *)
Definition prompt (topic : pystr) (template_description hero_copy : option pystr)
  : pystr :=
  lit "Create a new image following this exact template: "
  ++ template template_description ++ lit " "
  ++ lit "Topic/theme: " ++ topic ++ lit ". "
  ++ lit "Display this headline text (bold, white, left side): "
  ++ [34] ++ headline topic hero_copy ++ [34] ++ lit ". "
  ++ lit "Include relevant imagery on the right or center that visually represents the topic "
  ++ [8212]
  ++ lit " e.g., for talent acquisition: professionals, teams, hiring; for workforce/skills: learning, growth, people; for IT recruitment: tech, digital. "
  ++ lit "No other text. Match the reference images' layout, colors, and Tekspot branding. Suitable for LinkedIn company post.".

(** *** Response decoding *)

Definition TypeError_not_iterable : exn :=
  Exn "TypeError" (lit "'NoneType' object is not iterable").

(** [list(x)] on what an attribute holds. *)
Definition py_list {A} (a : attr (list A)) : Res (list A) :=
  match a with
  | Has l => Ok l
  | _ => Raise TypeError_not_iterable
  end.

(** Lines 124-131. *)
Definition parts (response : Response) : Res (list Part) :=
  match resp_parts response with
  | NoAttr =>
      match resp_candidates response with
      | Has (cand :: _) =>
          match cand_content cand with
          | Has content =>
              match content_parts content with
              | NoAttr => Ok []
              | a => py_list a
              end
          | _ => Ok []
          end
      | _ => Ok []
      end
  | a => py_list a
  end.

(** Line 144. *)
Definition payload (blob : Blob) : option pydata :=
  py_or (getattr_none (blob_data blob)) (getattr_none (blob_image_bytes blob)).

(** Line 146. *)
Definition decode_payload (env : Env) (data : pydata) : Res bytes :=
  match data with
  | PyBytes b => Ok b
  | PyStr s => b64decode env s
  end.

(** Lines 142-147 for one part: [Ok (Some b)] assigns [b] and breaks,
    [Ok None] goes on to the next part. *)
Definition inline_bytes (env : Env) (part : Part) : Res (option bytes) :=
  match inline_data part with
  | Has blob =>
      match payload blob with
      | Some data =>
          if truthy_data data then
            match decode_payload env data with
            | Ok b => Ok (Some b)
            | Raise e => Raise e
            end
          else Ok None
      | None => Ok None
      end
  | _ => Ok None
  end.

(** Lines 133-141 for one part: [Some b] assigns [b] and breaks, [None]
    falls through to the inline data (no accessor, or an exception that the
    inner [except] swallows). *)
Definition accessor_bytes (part : Part) : option bytes :=
  match as_image part with
  | Has (Ok (Some img)) =>
      match png_save img with
      | Ok b => Some b
      | Raise _ => None
      end
  | _ => None
  end.

(** Lines 133-147 for one part. *)
Definition part_bytes (env : Env) (part : Part) : Res (option bytes) :=
  match accessor_bytes part with
  | Some b => Ok (Some b)
  | None => inline_bytes env part
  end.

(** The loop of lines 132-147; [None] when it ends without a [break]. *)
Fixpoint image_bytes (env : Env) (ps : list Part) : Res (option bytes) :=
  match ps with
  | [] => Ok None
  | part :: ps' =>
      match part_bytes env part with
      | Ok (Some b) => Ok (Some b)
      | Ok None => image_bytes env ps'
      | Raise e => Raise e
      end
  end.

(** *** Persistence *)

Definition isalnum (env : Env) (c : N) : bool :=
  if c <? 128 then ascii_isalnum c else unicode_isalnum env c.

(** [c in " -_"] for a single character. *)
Definition in_space_hyphen_underscore (c : N) : bool :=
  (c =? 32) || (c =? 45) || (c =? 95).

(** Lines 152-154. *)
Definition safe_name (env : Env) (topic : pystr) : pystr :=
  map (fun c => if isalnum env c || in_space_hyphen_underscore c then c else 95)
      (firstn 50 topic).

Definition file_name (safe : pystr) (now : Z) : pystr :=
  lit "linkedin_image_" ++ safe ++ lit "_" ++ str_of_int now ++ lit ".png".

(** Line 155. *)
Definition fpath (env : Env) (topic : pystr) (now : Z) : path :=
  path_join (OUTPUT_DIR env) (file_name (safe_name env topic) now).

(** *** The pipeline *)

Definition result := (option path * option pystr)%type.

(** Lines 152-159. *)
Definition persist (env : Env) (topic : pystr) (data : bytes) : M result :=
  emit EvClock ;;;
  let p := fpath env topic (time_time env) in
  img <- lift (PILImage_open env data) ;;
  emit (EvImageSave p data) ;;;
  lift (image_save env img p) ;;;
  ret (Some p, None).

(** Lines 122-159. *)
Definition save_response (env : Env) (topic : pystr) (response : Response)
  : M result :=
  ps <- lift (parts response) ;;
  found <- lift (image_bytes env ps) ;;
  match found with
  | Some ((_ :: _) as data) => persist env topic data
  | _ => ret (None, Some (lit "No image in Gemini response"))
  end.

(** Lines 104-106. *)
Definition contents (prompt_text : pystr) (ref_images : list image)
  : list content_item :=
  if truthy ref_images then [Text prompt_text] ++ map Img ref_images
  else [Text prompt_text].

(** Lines 101-159, the body of the [try]. *)
Definition request (env : Env) (topic prompt_text : pystr)
    (ref_images : list image) : M result :=
  emit (EvClient (GEMINI_API_KEY env)) ;;;
  lift (genai_Client env (GEMINI_API_KEY env)) ;;;
  let cs := contents prompt_text ref_images in
  lift (genai_GenerateContentConfig env) ;;;
  emit (EvGenerate (GEMINI_IMAGE_MODEL env) cs) ;;;
  response <- lift (generate_content env (GEMINI_IMAGE_MODEL env) cs) ;;
  save_response env topic response.

(** Line 161. *)
Definition on_exception (e : exn) : M result := ret (None, Some (exn_str e)).

(** Line 91. *)
Definition ref_dir (env : Env) (reference_images_dir : option path) : path :=
  match reference_images_dir with
  | Some d => d
  | None => IMAGES_DIR env
  end.

Definition generate_post_image (env : Env) (topic style : pystr)
    (template_description hero_copy : option pystr)
    (reference_images_dir : option path) : M result :=
  if negb (truthy (GEMINI_API_KEY env))
  then ret (None, Some (lit "GEMINI_API_KEY is not set in .env"))
  else
    ensure_dirs env ;;;
    let prompt_text := prompt topic template_description hero_copy in
    ref_images <-
      _load_reference_images env (Some (ref_dir env reference_images_dir)) 2 ;;
    emit (EvImport "google.genai") ;;;
    if negb (genai_installed env)
    then ret (None, Some (lit "Install google-genai: pip install google-genai"))
    else
      emit (EvImport "PIL") ;;;
      if negb (pil_installed env)
      then ret (None, Some (lit "Install google-genai: pip install google-genai"))
      else try_except (request env topic prompt_text ref_images) on_exception.

(** ** Sample worlds

    Concrete environments on which the pipeline is run below. *)

Module Sample.

Definition png_magic : bytes := [x89; x50; x4e; x47].

(** A reference directory: listing order is not modification order, one entry
    is not an image file and the newest image does not decode. *)
Definition undecodable : exn :=
  Exn "UnidentifiedImageError" (lit "cannot identify image file").

Definition old_png : DirEntry :=
  {| f_name := lit "old.png"; f_mtime := Ok 100%Z; f_open := Ok (RGBImage [x01]) |}.
Definition notes_txt : DirEntry :=
  {| f_name := lit "notes.txt"; f_mtime := Ok 900%Z; f_open := Raise undecodable |}.
Definition new_jpg : DirEntry :=
  {| f_name := lit "new.JPG"; f_mtime := Ok 300%Z; f_open := Raise undecodable |}.
Definition mid_webp : DirEntry :=
  {| f_name := lit "mid.webp"; f_mtime := Ok 200%Z; f_open := Ok (RGBImage [x02]) |}.
Definition oldest_jpeg : DirEntry :=
  {| f_name := lit "oldest.jpeg"; f_mtime := Ok 50%Z; f_open := Ok (RGBImage [x03]) |}.

Definition entries : list DirEntry :=
  [old_png; notes_txt; new_jpg; mid_webp; oldest_jpeg].

(** A part that carries base64 text as inline data and whose accessor
    returns [None]. *)
Definition inline_part : Part :=
  {| as_image := Has (Ok None);
     inline_data := Has {| blob_data := Has (PyStr (lit "iVBORw=="));
                           blob_image_bytes := NoAttr |} |}.

(** A part that carries only text. *)
Definition text_part : Part :=
  {| as_image := Has (Ok None); inline_data := PyNone |}.

Definition nested (ps : list Part) : attr (list Candidate) :=
  Has [ {| cand_content := Has {| content_parts := Has ps |} |} ].

(** An image at the top level. *)
Definition flat_response : Response :=
  {| resp_parts := Has [text_part; inline_part]; resp_candidates := nested [] |}.

(** An empty top-level list, an image under the first candidate. *)
Definition shadowed_response : Response :=
  {| resp_parts := Has []; resp_candidates := nested [inline_part] |}.

(** No top-level list at all, an image under the first candidate. *)
Definition nested_response : Response :=
  {| resp_parts := NoAttr; resp_candidates := nested [text_part; inline_part] |}.

(** Inline text that is not base64, then an image. *)
Definition garbled_part : Part :=
  {| as_image := NoAttr;
     inline_data := Has {| blob_data := Has (PyStr (lit "abc"));
                           blob_image_bytes := PyNone |} |}.

Definition garbled_response : Response :=
  {| resp_parts := Has [garbled_part; inline_part]; resp_candidates := PyNone |}.

Definition text_response : Response :=
  {| resp_parts := Has [text_part]; resp_candidates := PyNone |}.

(** A world in which everything is installed and works, up to the
    parameters. *)
Definition world (api_key : option pystr) (mkdir_result : Res unit)
    (listing : Res (list DirEntry)) (response : Res Response) : Env :=
  {| os_getenv := fun name =>
       if pystr_eqb name (lit "GEMINI_API_KEY") then api_key else None;
     BASE_DIR := lit "/srv/tekspot";
     fs_mkdir := fun _ => mkdir_result;
     fs_exists := fun _ => true;
     fs_iterdir := fun _ => listing;
     pil_installed := true;
     genai_installed := true;
     unicode_isalnum := fun _ => false;
     genai_Client := fun _ => Ok tt;
     genai_GenerateContentConfig := Ok tt;
     generate_content := fun _ _ => response;
     b64decode := fun s =>
       if pystr_eqb s (lit "iVBORw==") then Ok png_magic
       else Raise (Exn "binascii.Error" (lit "Incorrect padding"));
     time_time := 1762160400%Z;
     PILImage_open := fun b => Ok (RGBImage b);
     image_save := fun _ _ => Ok tt |}.

Definition good (response : Response) : Env :=
  world (Some (lit " k3y ")) (Ok tt) (Ok entries) (Ok response).

Definition NotADirectoryError : exn :=
  Exn "NotADirectoryError" (lit "[Errno 20] Not a directory: 'notes.txt'").

Definition PermissionError : exn :=
  Exn "PermissionError" (lit "[Errno 13] Permission denied: '/srv/tekspot/data'").

Definition topic : pystr := lit "AI & Recruiting!!".

End Sample.

(** ** Vocabulary of the statements *)

Definition nonspace (c : N) : bool := negb (isspace c).

(** Some character of [s] is not white space. *)
Definition has_nonspace (s : pystr) : bool := existsb nonspace s.

(** [p] is a prefix of [l]. *)
Definition prefix_of {A} (p l : list A) : Prop := exists rest, l = p ++ rest.

(** [P] holds of the value whenever the computation returns one. *)
Definition returns_only {A} (P : A -> Prop) (m : M A) : Prop :=
  match snd m with Ok a => P a | Raise _ => True end.

(** Every operation the computation performs satisfies [Q]. *)
Definition performs_only {A} (Q : event -> Prop) (m : M A) : Prop :=
  Forall Q (fst m).

(** The results [generate_post_image] can return. *)
Inductive gpi_result (env : Env) (topic : pystr) : result -> Prop :=
| res_no_key :
    gpi_result env topic (None, Some (lit "GEMINI_API_KEY is not set in .env"))
| res_not_installed :
    gpi_result env topic
      (None, Some (lit "Install google-genai: pip install google-genai"))
| res_no_image :
    gpi_result env topic (None, Some (lit "No image in Gemini response"))
| res_exception (e : exn) :
    gpi_result env topic (None, Some (exn_str e))
| res_saved :
    gpi_result env topic (Some (fpath env topic (time_time env)), None).

(** The remote call, when there is one, carries the assembled prompt first
    and then reference images only. *)
Definition sends_prompt (prompt_text : pystr) (ev : event) : Prop :=
  match ev with
  | EvGenerate _ cs => exists refs, cs = Text prompt_text :: map Img refs
  | _ => True
  end.

Definition allowed (env : Env) (c : N) : bool :=
  isalnum env c || in_space_hyphen_underscore c.

(** The call gets as far as a remote response: the key is set, the
    directories and the reference images are there, the packages are
    installed and the service answers [response]. *)
Definition reaches (env : Env) (topic : pystr)
    (template_description hero_copy : option pystr)
    (reference_images_dir : option path) (refs : list image)
    (response : Response) : Prop :=
  GEMINI_API_KEY env <> []
  /\ snd (ensure_dirs env) = Ok tt
  /\ snd (_load_reference_images env
            (Some (ref_dir env reference_images_dir)) 2) = Ok refs
  /\ genai_installed env = true
  /\ pil_installed env = true
  /\ genai_Client env (GEMINI_API_KEY env) = Ok tt
  /\ genai_GenerateContentConfig env = Ok tt
  /\ generate_content env (GEMINI_IMAGE_MODEL env)
       (Text (prompt topic template_description hero_copy) :: map Img refs)
     = Ok response.

(** The list under the first candidate's content, if there is one. *)
Definition nested_parts (response : Response) : attr (list Part) :=
  match resp_candidates response with
  | Has (cand :: _) =>
      match cand_content cand with
      | Has content => content_parts content
      | _ => NoAttr
      end
  | _ => NoAttr
  end.

(** The part list the decoder walks: the flat one when the response has
    that attribute, the nested one only when it has not. *)
Inductive chosen_parts (response : Response) : list Part -> Prop :=
| chosen_flat ps :
    resp_parts response = Has ps -> chosen_parts response ps
| chosen_nested ps :
    resp_parts response = NoAttr -> nested_parts response = Has ps ->
    chosen_parts response ps
| chosen_nothing :
    resp_parts response = NoAttr -> nested_parts response = NoAttr ->
    chosen_parts response [].

(** A part yields [b]: through the image accessor, or, when that gives
    nothing, through its inline data. *)
Inductive yields (env : Env) (part : Part) : bytes -> Prop :=
| yields_accessor img b :
    as_image part = Has (Ok (Some img)) -> png_save img = Ok b ->
    yields env part b
| yields_inline blob data b :
    accessor_bytes part = None ->
    inline_data part = Has blob ->
    payload blob = Some data -> truthy_data data = true ->
    decode_payload env data = Ok b ->
    yields env part b.

(** A part yields nothing: no image through the accessor and no inline
    payload. *)
Definition yields_nothing (env : Env) (part : Part) : Prop :=
  accessor_bytes part = None
  /\ forall blob, inline_data part = Has blob ->
       match payload blob with
       | Some data => truthy_data data = false
       | None => True
       end.

(** The search as the specification words it: the flat parts and then the
    parts under the first candidate, up to the first part with usable
    bytes. *)
Definition usable (env : Env) (part : Part) : option bytes :=
  match part_bytes env part with
  | Ok (Some (c :: b)) => Some (c :: b)
  | _ => None
  end.

Fixpoint first_usable (env : Env) (ps : list Part) : option bytes :=
  match ps with
  | [] => None
  | part :: ps' =>
      match usable env part with
      | Some b => Some b
      | None => first_usable env ps'
      end
  end.

Definition attr_list {A} (a : attr (list A)) : list A :=
  match a with Has l => l | _ => [] end.

Definition spec_image_bytes (env : Env) (response : Response) : option bytes :=
  first_usable env
    (attr_list (resp_parts response) ++ attr_list (nested_parts response)).

(** C3 as the specification words it, at one call. *)
Definition decoding_as_specified (env : Env) (topic style : pystr)
    (template_description hero_copy : option pystr)
    (reference_images_dir : option path) (response : Response) : Prop :=
  snd (generate_post_image env topic style template_description hero_copy
         reference_images_dir)
  = match spec_image_bytes env response with
    | Some b => snd (try_except (persist env topic b) on_exception)
    | None => Ok (None, Some (lit "No image in Gemini response"))
    end.

(** The images that decode, in order. *)
Definition decoded (fs : list DirEntry) : list image :=
  flat_map (fun f => match f_open f with Ok img => [img] | Raise _ => [] end) fs.

(** [ks] pairs every file of [fs], in order, with its modification time. *)
Definition keyed_by_mtime (fs : list DirEntry) (ks : list (Z * DirEntry)) : Prop :=
  Forall2 (fun f k => f_mtime f = Ok (fst k) /\ snd k = f) fs ks.

(** [a] was modified no earlier than [b]. *)
Definition newer_first (a b : Z * DirEntry) : Prop := (fst b <= fst a)%Z.

(** ** The rest of config.py *)

Definition TOPICS_EXCEL (env : Env) : path :=
  path_join (DATA_DIR env) (lit "topics.xlsx").

Definition TAVILY_API_KEY (env : Env) : pystr :=
  strip (getenv_default env "TAVILY_API_KEY" []).

Definition GEMINI_CHAT_MODEL (env : Env) : pystr :=
  getenv_default env "GEMINI_CHAT_MODEL" (lit "gemini-3-flash-preview").

(** ** More sample worlds *)

Module Edge.

Definition FileNotFoundError : exn :=
  Exn "FileNotFoundError" (lit "[Errno 2] No such file or directory: 'gone.png'").

(** A dangling symbolic link: listed, but [stat()] follows it and fails. *)
Definition gone_png : DirEntry :=
  {| f_name := lit "gone.png"; f_mtime := Raise FileNotFoundError;
     f_open := Raise Sample.undecodable |}.

Definition listing : list DirEntry :=
  [Sample.old_png; Sample.notes_txt; gone_png; Sample.mid_webp].

(** Two images modified at the same instant, then a newer one. *)
Definition twin_a : DirEntry :=
  {| f_name := lit "a.png"; f_mtime := Ok 70%Z; f_open := Ok (RGBImage [x0a]) |}.
Definition twin_b : DirEntry :=
  {| f_name := lit "b.png"; f_mtime := Ok 70%Z; f_open := Ok (RGBImage [x0b]) |}.

(** [env] with other codecs and another state of the installation. *)
Definition variant (env : Env) (pil genai : bool)
    (decode : pystr -> Res bytes) (open : bytes -> Res image)
    (save : image -> path -> Res unit) : Env :=
  {| os_getenv := os_getenv env;
     BASE_DIR := BASE_DIR env;
     fs_mkdir := fs_mkdir env;
     fs_exists := fs_exists env;
     fs_iterdir := fs_iterdir env;
     pil_installed := pil;
     genai_installed := genai;
     unicode_isalnum := unicode_isalnum env;
     genai_Client := genai_Client env;
     genai_GenerateContentConfig := genai_GenerateContentConfig env;
     generate_content := generate_content env;
     b64decode := decode;
     time_time := time_time env;
     PILImage_open := open;
     image_save := save |}.

Definition ServerError : exn :=
  Exn "ServerError" (lit "503 UNAVAILABLE. The model is overloaded.").

Definition OSError_no_space : exn :=
  Exn "OSError" (lit "[Errno 28] No space left on device").

(** Inline text made of characters outside the base64 alphabet: they are
    discarded, and nothing is left to decode. *)
Definition hollow_part : Part :=
  {| as_image := NoAttr;
     inline_data := Has {| blob_data := Has (PyStr (lit "!!!!"));
                           blob_image_bytes := NoAttr |} |}.

Definition hollow_response : Response :=
  {| resp_parts := Has [hollow_part; Sample.inline_part];
     resp_candidates := PyNone |}.

Definition lenient_b64decode (s : pystr) : Res bytes :=
  if pystr_eqb s (lit "!!!!") then Ok []
  else if pystr_eqb s (lit "iVBORw==") then Ok Sample.png_magic
  else Raise (Exn "binascii.Error" (lit "Incorrect padding")).

Definition none_response : Response :=
  {| resp_parts := PyNone; resp_candidates := PyNone |}.

End Edge.

(** ** More vocabulary *)

(** No white space at either end. *)
Definition trimmed (s : pystr) : Prop := lstrip s = s /\ rstrip s = s.

(** The environment variable of the key is unset or blank. *)
Definition key_unset (env : Env) : Prop :=
  match os_getenv env (lit "GEMINI_API_KEY") with
  | Some v => has_nonspace v = false
  | None => True
  end.

Definition is_generate (ev : event) : bool :=
  match ev with EvGenerate _ _ => true | _ => false end.

Definition is_client (ev : event) : bool :=
  match ev with EvClient _ => true | _ => false end.

Definition is_save (ev : event) : bool :=
  match ev with EvImageSave _ _ => true | _ => false end.

Definition is_open (ev : event) : bool :=
  match ev with EvImageOpen _ => true | _ => false end.

Definition is_stat (ev : event) : bool :=
  match ev with EvStat _ => true | _ => false end.

(** How many logged operations satisfy [f]. *)
Definition count_events (f : event -> bool) (t : list event) : nat :=
  List.length (filter f t).

(** The call gets as far as the [try]: the key is set, the directories
    exist, the references were loaded and both packages import. *)
Definition in_try (env : Env) (reference_images_dir : option path)
    (refs : list image) : Prop :=
  GEMINI_API_KEY env <> []
  /\ snd (ensure_dirs env) = Ok tt
  /\ snd (_load_reference_images env
            (Some (ref_dir env reference_images_dir)) 2) = Ok refs
  /\ genai_installed env = true
  /\ pil_installed env = true.

(** What the directory listing gave, nothing if it failed. *)
Definition entries_of (env : Env) (d : path) : list DirEntry :=
  match fs_iterdir env d with Ok l => l | Raise _ => [] end.

(** The operations the loader may perform on directory [d]. *)
Definition loader_touches (entries : list DirEntry) (d : path) (ev : event)
  : Prop :=
  match ev with
  | EvExists p | EvIterdir p => p = d
  | EvImport m => m = "PIL"%string
  | EvStat name | EvImageOpen name =>
      exists f, In f entries /\ is_supported f = true /\ f_name f = name
  | _ => False
  end.

(** The operations [ensure_dirs] may perform. *)
Definition makes_data_or_output (env : Env) (ev : event) : Prop :=
  ev = EvMkdir (DATA_DIR env) \/ ev = EvMkdir (OUTPUT_DIR env).

(** What the remote call of one invocation looks like. *)
Definition remote_call (env : Env) (prompt_text : pystr)
    (loaded : Res (list image)) (ev : event) : Prop :=
  match ev with
  | EvGenerate model cs =>
      model = GEMINI_IMAGE_MODEL env
      /\ exists refs, loaded = Ok refs
                     /\ cs = Text prompt_text :: map Img refs
                     /\ (List.length cs <= 3)%nat
  | _ => True
  end.

(** The client is built from the configured key. *)
Definition client_key (env : Env) (ev : event) : Prop :=
  match ev with
  | EvClient k => k = GEMINI_API_KEY env /\ k <> [] /\ trimmed k
  | _ => True
  end.

(** The log [t] ends with the clock read and the successful save of
    non-empty [data] at [p]. *)
Definition saved_last (env : Env) (p : path) (t : list event) : Prop :=
  exists t0 data img,
    t = t0 ++ [EvClock; EvImageSave p data]
    /\ data <> []
    /\ PILImage_open env data = Ok img
    /\ image_save env img p = Ok tt.

(** A computation that returns a path has just saved the file there. *)
Definition success_saves (env : Env) (m : M result) : Prop :=
  forall p e, snd m = Ok (Some p, e) -> saved_last env p (fst m).

(** The operations up to the [try], when all of them succeed. *)
Definition preamble (env : Env) (reference_images_dir : option path)
  : list event :=
  fst (ensure_dirs env)
  ++ fst (_load_reference_images env
            (Some (ref_dir env reference_images_dir)) 2)
  ++ [EvImport "google.genai"; EvImport "PIL"].

(** An operation of the preamble: it neither builds a client, nor calls the
    service, nor saves. *)
Definition quiet (ev : event) : Prop :=
  is_client ev = false /\ is_generate ev = false /\ is_save ev = false.

(** * Properties *)

(** ** Tokens and white space *)

Lemma truthy_nil_iff {A} (l : list A) : truthy l = false <-> l = [].
Proof. destruct l; simpl; split; congruence. Qed.

Lemma truthy_rev {A} (l : list A) : truthy (rev l) = truthy l.
Proof.
  destruct l as [|a l]; [reflexivity|].
  simpl. destruct (rev l); reflexivity.
Qed.

Lemma split_lstrip s : split (lstrip s) = split s.
Proof.
  induction s as [|c s IH]; [reflexivity|].
  simpl lstrip. destruct (isspace c) eqn:Hc; [|reflexivity].
  rewrite IH. simpl. now rewrite Hc.
Qed.

Lemma split_snoc_space s c : isspace c = true -> split (s ++ [c]) = split s.
Proof.
  intros Hc. induction s as [|a s IH].
  - simpl. now rewrite Hc.
  - change ((a :: s) ++ [c]) with (a :: (s ++ [c])).
    cbn [split]. rewrite IH.
    destruct (isspace a); [reflexivity|].
    destruct s as [|d s]; simpl.
    + now rewrite Hc.
    + reflexivity.
Qed.

Lemma split_app_blank ws : blank ws -> forall s, split (s ++ ws) = split s.
Proof.
  induction 1 as [|c ws Hc _ IH]; intros s.
  - now rewrite app_nil_r.
  - change (c :: ws) with ([c] ++ ws). rewrite app_assoc, IH.
    now apply split_snoc_space.
Qed.

Lemma lstrip_decomp s : exists ws, s = ws ++ lstrip s /\ blank ws.
Proof.
  induction s as [|c s (ws & Hs & Hws)].
  - exists []. split; [reflexivity | constructor].
  - simpl. destruct (isspace c) eqn:Hc.
    + exists (c :: ws). split; [simpl; congruence | now constructor].
    + exists []. split; [reflexivity | constructor].
Qed.

Lemma blank_rev ws : blank ws -> blank (rev ws).
Proof. unfold blank. intros H. now apply Forall_rev. Qed.

Lemma split_rstrip s : split (rstrip s) = split s.
Proof.
  unfold rstrip.
  destruct (lstrip_decomp (rev s)) as (ws & Hs & Hws).
  assert (E : s = rev (lstrip (rev s)) ++ rev ws).
  { rewrite <- rev_app_distr, <- Hs. now rewrite rev_involutive. }
  rewrite E at 2. symmetry. apply split_app_blank. now apply blank_rev.
Qed.

Lemma split_strip s : split (strip s) = split s.
Proof. unfold strip. now rewrite split_rstrip, split_lstrip. Qed.

Lemma truthy_split s : truthy (split s) = has_nonspace s.
Proof.
  induction s as [|c s IH]; [reflexivity|].
  cbn [split has_nonspace existsb]. unfold nonspace at 1.
  destruct (isspace c); simpl; [exact IH|].
  destruct s as [|d s]; [reflexivity|].
  destruct (isspace d); [reflexivity|].
  destruct (split (d :: s)); reflexivity.
Qed.

Lemma truthy_lstrip s : truthy (lstrip s) = has_nonspace s.
Proof.
  induction s as [|c s IH]; [reflexivity|].
  simpl. unfold nonspace at 1. destruct (isspace c); simpl; [exact IH | reflexivity].
Qed.

Lemma has_nonspace_rev s : has_nonspace (rev s) = has_nonspace s.
Proof.
  unfold has_nonspace. induction s as [|c s IH]; [reflexivity|].
  simpl. rewrite existsb_app, IH. simpl.
  rewrite orb_false_r. apply orb_comm.
Qed.

Lemma has_nonspace_lstrip s : has_nonspace (lstrip s) = has_nonspace s.
Proof. now rewrite <- !truthy_split, split_lstrip. Qed.

Lemma truthy_strip s : truthy (strip s) = has_nonspace s.
Proof.
  unfold strip, rstrip.
  now rewrite truthy_rev, truthy_lstrip, has_nonspace_rev, has_nonspace_lstrip.
Qed.

Lemma has_nonspace_truthy s : has_nonspace s = true -> truthy s = true.
Proof. destruct s; [discriminate | reflexivity]. Qed.

(** Every token is a non-empty run without white space. *)
Lemma split_words s : Forall word (split s).
Proof.
  induction s as [|c s IH]; [constructor|].
  cbn [split]. destruct (isspace c) eqn:Hc; [exact IH|].
  assert (Hw : word [c]).
  { split; [discriminate | simpl; now rewrite Hc]. }
  destruct s as [|d s]; [now constructor|].
  destruct (isspace d) eqn:Hd; [now constructor|].
  destruct (split (d :: s)) as [|w ws]; [now constructor|].
  inversion IH as [|? ? [Hne Hall] Hws]; subst.
  constructor; [|exact Hws].
  split; [discriminate | simpl; now rewrite Hc].
Qed.

Lemma split_word_then_space w c s :
  word w -> isspace c = true -> split (w ++ c :: s) = w :: split s.
Proof.
  intros [Hne Hall] Hc. induction w as [|a w IH]; [congruence|].
  simpl in Hall. apply andb_true_iff in Hall as [Ha Hall].
  apply negb_true_iff in Ha.
  change ((a :: w) ++ c :: s) with (a :: (w ++ c :: s)).
  cbn [split]. rewrite Ha.
  destruct w as [|b w].
  - simpl. now rewrite Hc.
  - assert (Hb : isspace b = false).
    { simpl in Hall. apply andb_true_iff in Hall as [Hb _].
      now apply negb_true_iff in Hb. }
    rewrite IH by (try discriminate; exact Hall).
    simpl. now rewrite Hb.
Qed.

Lemma split_one_word w : word w -> split w = [w].
Proof.
  intros Hw.
  rewrite <- (split_snoc_space w 32) by reflexivity.
  rewrite (split_word_then_space w 32 []) by (try reflexivity; exact Hw).
  reflexivity.
Qed.

(** Joining tokens with single spaces and splitting again gives them back. *)
Lemma split_join ws : Forall word ws -> split (join (lit " ") ws) = ws.
Proof.
  induction 1 as [|w ws Hw Hws IH]; [reflexivity|].
  cbn [join]. destruct ws as [|w' ws'].
  - now apply split_one_word.
  - change (lit " ") with [32] in *.
    change (w ++ [32] ++ join [32] (w' :: ws'))
      with (w ++ 32 :: join [32] (w' :: ws')).
    rewrite split_word_then_space by (try reflexivity; exact Hw).
    now rewrite IH.
Qed.

Lemma join_truthy sep w ws : w <> [] -> truthy (join sep (w :: ws)) = true.
Proof.
  intros Hw. destruct w as [|c w]; [congruence|].
  simpl. destruct ws; reflexivity.
Qed.

Lemma Forall_firstn {A} (P : A -> Prop) n l : Forall P l -> Forall P (firstn n l).
Proof.
  intros H. revert n. induction H as [|a l Ha _ IH]; intros [|n]; simpl;
    constructor; auto.
Qed.

Lemma firstn_prefix {A} n (l : list A) : prefix_of (firstn n l) l.
Proof. exists (skipn n l). now rewrite firstn_skipn. Qed.

(** ** Headline derivation *)

Lemma join_firstn_truthy n s :
  has_nonspace s = true ->
  truthy (join (lit " ") (firstn (S n) (split s))) = true.
Proof.
  intros Hs. rewrite <- truthy_split in Hs.
  pose proof (split_words s) as Hw.
  destruct (split s) as [|w ws]; [discriminate|].
  inversion Hw as [|? ? [Hne _] _]; subst.
  cbn [firstn]. now apply join_truthy.
Qed.

Lemma headline_from_hero topic h :
  has_nonspace h = true ->
  headline topic (Some h) = join (lit " ") (firstn 10 (split h)).
Proof.
  intros Hh. unfold headline.
  rewrite truthy_strip, Hh, (has_nonspace_truthy h Hh), split_strip.
  cbn [andb]. now rewrite (join_firstn_truthy 9 h Hh).
Qed.

Lemma headline_from_topic topic hero :
  match hero with Some h => has_nonspace h = false | None => True end ->
  headline topic hero = join (lit " ") (firstn 8 (split topic)).
Proof.
  intros Hh. unfold headline. destruct hero as [h|].
  - rewrite truthy_strip, Hh, andb_false_r. cbn. now rewrite split_strip.
  - cbn. now rewrite split_strip.
Qed.

(** C4, as the code has it.  When [hero_copy] holds a character that is not
    white space, the headline is the first 10 tokens of [hero_copy] joined by
    single spaces: it has at most 10 tokens and they are a prefix of the
    tokens of [hero_copy].  When [hero_copy] is absent, empty or all white
    space, the headline is the first 8 tokens of [topic] joined by single
    spaces. *)
Theorem headline_tokens (topic : pystr) (hero_copy : option pystr) :
  match hero_copy with
  | Some h =>
      if has_nonspace h then
        headline topic hero_copy = join (lit " ") (firstn 10 (split h))
        /\ (List.length (split (headline topic hero_copy)) <= 10)%nat
        /\ prefix_of (split (headline topic hero_copy)) (split h)
      else headline topic hero_copy = join (lit " ") (firstn 8 (split topic))
  | None => headline topic hero_copy = join (lit " ") (firstn 8 (split topic))
  end.
Proof.
  destruct hero_copy as [h|].
  - destruct (has_nonspace h) eqn:Hh.
    + rewrite (headline_from_hero topic h Hh).
      rewrite split_join by (apply Forall_firstn, split_words).
      repeat split.
      * apply firstn_le_length.
      * apply firstn_prefix.
    + now apply headline_from_topic.
  - now apply headline_from_topic.
Qed.

(** C4 as stated fails: a [hero_copy] of one space is not empty, yet the
    headline is taken from [topic], whose tokens are no prefix of the (zero)
    tokens of [hero_copy]. *)
Lemma headline_blank_hero_copy_not_prefix :
  let topic := lit "AI" in
  let hero_copy := lit " " in
  hero_copy <> []
  /\ headline topic (Some hero_copy) = lit "AI"
  /\ ~ prefix_of (split (headline topic (Some hero_copy))) (split hero_copy).
Proof.
  cbv zeta. split; [discriminate|]. split; [reflexivity|].
  intros [rest H]. vm_compute in H. discriminate H.
Qed.

(** C8, as the code has it: a [topic] holding a character that is not white
    space gives a non-empty headline, whatever [hero_copy] is. *)
Theorem headline_nonempty (topic : pystr) (hero_copy : option pystr) :
  has_nonspace topic = true -> headline topic hero_copy <> [].
Proof.
  intros Ht Hnil. apply truthy_nil_iff in Hnil.
  destruct hero_copy as [h|]; [destruct (has_nonspace h) eqn:Hh|].
  - rewrite (headline_from_hero topic h Hh), (join_firstn_truthy 9 h Hh) in Hnil.
    discriminate.
  - rewrite (headline_from_topic topic (Some h) Hh),
      (join_firstn_truthy 7 topic Ht) in Hnil.
    discriminate.
  - rewrite (headline_from_topic topic None I),
      (join_firstn_truthy 7 topic Ht) in Hnil.
    discriminate.
Qed.

Lemma headline_nonempty_witness :
  has_nonspace (lit "AI & Recruiting!!") = true
  /\ headline (lit "AI & Recruiting!!") None <> [].
Proof.
  split; [reflexivity|].
  apply (headline_nonempty (lit "AI & Recruiting!!") None). reflexivity.
Defined.

(** C8 as stated fails: a [topic] of one space is a non-empty string whose
    headline is empty. *)
Lemma headline_empty_for_blank_topic :
  lit " " <> [] /\ headline (lit " ") None = [].
Proof. split; [discriminate | reflexivity]. Qed.

(** ** Reasoning about computations *)

Section Effects.

Context {A B : Type}.

Lemma snd_bind (m : M A) (k : A -> M B) :
  snd (bind m k) = match snd m with Ok a => snd (k a) | Raise e => Raise e end.
Proof. destruct m as [t [a|e]]; simpl; [destruct (k a)|]; reflexivity. Qed.

Lemma fst_bind (m : M A) (k : A -> M B) :
  fst (bind m k) =
  match snd m with Ok a => fst m ++ fst (k a) | Raise _ => fst m end.
Proof. destruct m as [t [a|e]]; simpl; [destruct (k a)|]; reflexivity. Qed.

Lemma snd_try_except (m : M A) (h : exn -> M A) :
  snd (try_except m h) =
  match snd m with Ok a => Ok a | Raise e => snd (h e) end.
Proof. destruct m as [t [a|e]]; simpl; [|destruct (h e)]; reflexivity. Qed.

Lemma fst_try_except (m : M A) (h : exn -> M A) :
  fst (try_except m h) =
  match snd m with Ok _ => fst m | Raise e => fst m ++ fst (h e) end.
Proof. destruct m as [t [a|e]]; simpl; [|destruct (h e)]; reflexivity. Qed.

End Effects.

Section Hoare.

Context {A B : Type}.

Lemma returns_only_ret (P : A -> Prop) a : P a -> returns_only P (ret a).
Proof. exact (fun H => H). Qed.

Lemma returns_only_bind (P : B -> Prop) (m : M A) (k : A -> M B) :
  (forall a, returns_only P (k a)) -> returns_only P (bind m k).
Proof.
  unfold returns_only. intros H. rewrite snd_bind.
  destruct (snd m) as [a|e]; [apply H | exact I].
Qed.

Lemma returns_only_try (P : A -> Prop) (m : M A) (h : exn -> M A) :
  returns_only P m -> (forall e, returns_only P (h e)) ->
  returns_only P (try_except m h).
Proof.
  unfold returns_only. intros Hm Hh. rewrite snd_try_except.
  destruct (snd m) as [a|e]; [exact Hm | apply Hh].
Qed.

Lemma performs_only_nil (Q : event -> Prop) (r : Res A) :
  performs_only Q (([], r) : M A).
Proof. constructor. Qed.

Lemma performs_only_emit (Q : event -> Prop) ev :
  Q ev -> performs_only Q (emit ev).
Proof. intros H. repeat constructor. exact H. Qed.

Lemma performs_only_bind (Q : event -> Prop) (m : M A) (k : A -> M B) :
  performs_only Q m -> (forall a, performs_only Q (k a)) ->
  performs_only Q (bind m k).
Proof.
  unfold performs_only. intros Hm Hk. rewrite fst_bind.
  destruct (snd m) as [a|e]; [|exact Hm].
  apply Forall_app. split; [exact Hm | apply Hk].
Qed.

Lemma performs_only_try (Q : event -> Prop) (m : M A) (h : exn -> M A) :
  performs_only Q m -> (forall e, performs_only Q (h e)) ->
  performs_only Q (try_except m h).
Proof.
  unfold performs_only. intros Hm Hh. rewrite fst_try_except.
  destruct (snd m) as [a|e]; [exact Hm|].
  apply Forall_app. split; [exact Hm | apply Hh].
Qed.

End Hoare.

(** Splits a goal about a computation along its binds. *)
Ltac effects :=
  repeat match goal with
    | |- performs_only _ (bind _ _) => apply performs_only_bind; [|intro]
    | |- performs_only _ (try_except _ _) => apply performs_only_try; [|intro]
    | |- performs_only _ (emit _) => apply performs_only_emit; try exact I
    | |- performs_only _ (ret _) => apply performs_only_nil
    | |- performs_only _ (lift _) => apply performs_only_nil
    | |- performs_only _ (if ?b then _ else _) => destruct b
    end.

(** ** Shape of the results *)

Lemma contents_cons prompt_text refs :
  contents prompt_text refs = Text prompt_text :: map Img refs.
Proof. destruct refs; reflexivity. Qed.

Lemma persist_result env topic data :
  returns_only (gpi_result env topic) (persist env topic data).
Proof.
  unfold persist. repeat (apply returns_only_bind; intro).
  apply returns_only_ret. constructor.
Qed.

Lemma save_response_result env topic response :
  returns_only (gpi_result env topic) (save_response env topic response).
Proof.
  unfold save_response. repeat (apply returns_only_bind; intro).
  match goal with |- returns_only _ (match ?x with _ => _ end) =>
    destruct x as [[|]|] end;
    try (apply returns_only_ret; constructor).
  apply persist_result.
Qed.

(** Whatever [generate_post_image] returns is one of its five results. *)
Lemma generate_post_image_result env topic style td hc rd :
  returns_only (gpi_result env topic)
    (generate_post_image env topic style td hc rd).
Proof.
  unfold generate_post_image.
  destruct (negb (truthy (GEMINI_API_KEY env)));
    [apply returns_only_ret; constructor|].
  do 3 (apply returns_only_bind; intro).
  destruct (negb (genai_installed env));
    [apply returns_only_ret; constructor|].
  apply returns_only_bind; intro.
  destruct (negb (pil_installed env));
    [apply returns_only_ret; constructor|].
  apply returns_only_try.
  - unfold request. cbv zeta. do 5 (apply returns_only_bind; intro).
    apply save_response_result.
  - intro e. apply returns_only_ret. constructor.
Qed.

(** C7: a result that [generate_post_image] returns has exactly one arm
    populated: a path and no message, or a message and no path. *)
Theorem result_two_armed env topic style td hc rd (p : option path)
    (e : option pystr) :
  snd (generate_post_image env topic style td hc rd) = Ok (p, e) ->
  (p <> None /\ e = None) \/ (p = None /\ e <> None).
Proof.
  intros H.
  pose proof (generate_post_image_result env topic style td hc rd) as R.
  unfold returns_only in R. rewrite H in R.
  inversion R; subst; (left; split; [discriminate | reflexivity])
                      || (right; split; [reflexivity | discriminate]).
Qed.

Lemma result_two_armed_witness :
  let env := Sample.good Sample.flat_response in
  let p := Some (fpath env Sample.topic (time_time env)) in
  snd (generate_post_image env Sample.topic [] None None None) = Ok (p, None)
  /\ ((p <> None /\ @None pystr = None) \/ (p = None /\ @None pystr <> None)).
Proof.
  cbv zeta. split; [vm_compute; reflexivity|].
  apply (result_two_armed (Sample.good Sample.flat_response) Sample.topic []
           None None None).
  vm_compute; reflexivity.
Defined.

(** C2: with an empty API key the call returns the configuration error at
    once; no external operation is performed. *)
Theorem no_api_key_no_io env topic style td hc rd :
  GEMINI_API_KEY env = [] ->
  generate_post_image env topic style td hc rd
  = ([], Ok (None, Some (lit "GEMINI_API_KEY is not set in .env"))).
Proof. intros H. unfold generate_post_image. rewrite H. reflexivity. Qed.

Lemma no_api_key_no_io_witness :
  let env := Sample.world (Some (lit "  ")) (Ok tt) (Ok Sample.entries)
               (Ok Sample.flat_response) in
  GEMINI_API_KEY env = []
  /\ generate_post_image env Sample.topic [] None None None
     = ([], Ok (None, Some (lit "GEMINI_API_KEY is not set in .env"))).
Proof.
  cbv zeta. split; [reflexivity|].
  apply no_api_key_no_io. reflexivity.
Defined.

(** ** The style argument *)

Lemma stat_keys_sends p fs : performs_only (sends_prompt p) (stat_keys fs).
Proof. induction fs as [|f fs IH]; cbn [stat_keys]; effects. exact IH. Qed.

Lemma load_loop_sends p fs : performs_only (sends_prompt p) (load_loop fs).
Proof. induction fs as [|f fs IH]; cbn [load_loop]; effects. exact IH. Qed.

Lemma load_reference_images_sends p env d n :
  performs_only (sends_prompt p) (_load_reference_images env d n).
Proof.
  unfold _load_reference_images. destruct d as [d|]; effects.
  - apply stat_keys_sends.
  - apply load_loop_sends.
Qed.

Lemma request_sends env topic p refs :
  performs_only (sends_prompt p) (request env topic p refs).
Proof.
  unfold request. cbv zeta. effects.
  - simpl. exists refs. apply contents_cons.
  - unfold save_response. effects.
    match goal with |- performs_only _ (match ?x with _ => _ end) =>
      destruct x as [[|]|] end; unfold persist; effects.
Qed.

(** C9: two calls that differ in [style] alone perform the same operations
    and end alike, and the prompt that reaches the remote service is the one
    assembled from [topic], [template_description] and [hero_copy]. *)
Theorem style_is_ignored env topic style1 style2 td hc rd :
  generate_post_image env topic style1 td hc rd
  = generate_post_image env topic style2 td hc rd
  /\ performs_only (sends_prompt (prompt topic td hc))
       (generate_post_image env topic style1 td hc rd).
Proof.
  split; [reflexivity|].
  unfold generate_post_image. cbv zeta. effects;
    try apply load_reference_images_sends; try apply request_sends.
  - unfold ensure_dirs, mkdir. effects.
  - unfold on_exception. effects.
Qed.

(** ** Exceptions that leave the pipeline *)

(** Once the directories exist and the reference directory could be
    listed, the call returns: everything after is inside the [try]. *)
Lemma generate_post_image_returns env topic style td hc rd refs :
  snd (ensure_dirs env) = Ok tt ->
  snd (_load_reference_images env (Some (ref_dir env rd)) 2) = Ok refs ->
  exists r, snd (generate_post_image env topic style td hc rd) = Ok r.
Proof.
  intros Hd Hr. unfold generate_post_image.
  destruct (negb (truthy (GEMINI_API_KEY env))); [eexists; reflexivity|].
  rewrite snd_bind, Hd. cbv zeta. rewrite snd_bind, Hr, snd_bind. cbn [emit snd].
  destruct (negb (genai_installed env)); [eexists; reflexivity|].
  rewrite snd_bind. cbn [emit snd].
  destruct (negb (pil_installed env)); [eexists; reflexivity|].
  rewrite snd_try_except.
  destruct (snd (request _ _ _ _)); eexists; reflexivity.
Qed.

(** C1 fails on the code: the directory bootstrap and the listing of the
    reference directory run outside the [try].  A [reference_images_dir] that
    names a regular file, or an installation directory that cannot be
    written, makes the call raise instead of returning a pair. *)
Theorem generate_post_image_raises :
  snd (generate_post_image
         (Sample.world (Some (lit "k3y")) (Ok tt)
            (Raise Sample.NotADirectoryError) (Ok Sample.flat_response))
         Sample.topic [] None None (Some (lit "notes.txt")))
  = Raise Sample.NotADirectoryError
  /\ snd (generate_post_image
            (Sample.world (Some (lit "k3y")) (Raise Sample.PermissionError)
               (Ok Sample.entries) (Ok Sample.flat_response))
            Sample.topic [] None None None)
     = Raise Sample.PermissionError.
Proof. split; vm_compute; reflexivity. Qed.

(** ** The file written *)

Lemma safe_name_length env topic : (List.length (safe_name env topic) <= 50)%nat.
Proof. unfold safe_name. rewrite length_map. apply firstn_le_length. Qed.

Lemma safe_name_allowed env topic :
  Forall (fun c => allowed env c = true) (safe_name env topic).
Proof.
  unfold safe_name. apply Forall_map, Forall_forall. intros c _.
  fold (allowed env c). destruct (allowed env c) eqn:E; [exact E | reflexivity].
Qed.

Lemma safe_name_pointwise env topic :
  Forall2 (fun c c' => c' = if allowed env c then c else 95)
    (firstn 50 topic) (safe_name env topic).
Proof.
  unfold safe_name. induction (firstn 50 topic) as [|c l IH]; simpl;
    constructor; [reflexivity | exact IH].
Qed.

Lemma uint_no_slash d : ~ In 47 (lit (NilEmpty.string_of_uint d)).
Proof.
  induction d; cbn; try tauto; intros [H|H]; try discriminate H; tauto.
Qed.

Lemma str_of_int_no_slash z : ~ In 47 (str_of_int z).
Proof.
  unfold str_of_int, NilZero.string_of_int, NilZero.string_of_uint.
  destruct (Z.to_int z) as [d|d].
  - destruct d; try apply uint_no_slash. cbn. intros [H|[]]. discriminate H.
  - destruct d; cbn; intros [H|H]; try discriminate H;
      try (destruct H as [H|[]]; discriminate H).
    all: match goal with
         | H : _ \/ In 47 (map _ (list_ascii_of_string (NilEmpty.string_of_uint ?d))) |- _ =>
             destruct H as [H|H]; [discriminate H | exact (uint_no_slash d H)]
         end.
Qed.

Lemma file_name_no_slash env topic now :
  ~ In 47 (file_name (safe_name env topic) now).
Proof.
  unfold file_name. rewrite !in_app_iff.
  intros [H|[H|[H|[H|H]]]].
  - vm_compute in H. intuition discriminate.
  - pose proof (safe_name_allowed env topic) as Hall.
    rewrite Forall_forall in Hall. specialize (Hall 47 H). discriminate Hall.
  - vm_compute in H. intuition discriminate.
  - exact (str_of_int_no_slash now H).
  - vm_compute in H. intuition discriminate.
Qed.

(** C6: a path that [generate_post_image] returns is
    [linkedin_image_<token>_<timestamp>.png] directly under the output
    directory, where the token is the first 50 characters of [topic] with
    every character other than an alphanumeric, space, hyphen or underscore
    replaced by an underscore. *)
Theorem saved_file_name env topic style td hc rd (p : path) (e : option pystr) :
  snd (generate_post_image env topic style td hc rd) = Ok (Some p, e) ->
  let token := safe_name env topic in
  let name := lit "linkedin_image_" ++ token ++ lit "_"
              ++ str_of_int (time_time env) ++ lit ".png" in
  p = path_join (OUTPUT_DIR env) name
  /\ ~ In 47 name
  /\ (List.length token <= 50)%nat
  /\ Forall (fun c => isalnum env c = true \/ c = 32 \/ c = 45 \/ c = 95) token
  /\ Forall2 (fun c c' => c' = if allowed env c then c else 95)
       (firstn 50 topic) token.
Proof.
  intros H. cbv zeta.
  pose proof (generate_post_image_result env topic style td hc rd) as R.
  unfold returns_only in R. rewrite H in R.
  inversion R; subst. split; [reflexivity|].
  split; [apply file_name_no_slash|].
  split; [apply safe_name_length|].
  split; [|apply safe_name_pointwise].
  eapply Forall_impl; [|apply safe_name_allowed].
  intros c Hc. unfold allowed, in_space_hyphen_underscore in Hc.
  rewrite !orb_true_iff, !N.eqb_eq in Hc. tauto.
Qed.

Lemma saved_file_name_witness :
  let env := Sample.good Sample.flat_response in
  let p := lit "/srv/tekspot/output/linkedin_image_AI _ Recruiting___1762160400.png" in
  snd (generate_post_image env Sample.topic [] None None None) = Ok (Some p, None)
  /\ safe_name env Sample.topic = lit "AI _ Recruiting__"
  /\ p = path_join (OUTPUT_DIR env)
           (lit "linkedin_image_" ++ safe_name env Sample.topic ++ lit "_"
            ++ str_of_int (time_time env) ++ lit ".png").
Proof.
  cbv zeta. split; [vm_compute; reflexivity|]. split; [vm_compute; reflexivity|].
  apply (saved_file_name (Sample.good Sample.flat_response) Sample.topic []
           None None None _ None).
  vm_compute; reflexivity.
Defined.

(** ** Response decoding *)

Lemma reaches_outcome env topic style td hc rd refs response :
  reaches env topic td hc rd refs response ->
  snd (generate_post_image env topic style td hc rd)
  = snd (try_except (save_response env topic response) on_exception).
Proof.
  intros (Hkey & Hdirs & Hrefs & Hgenai & Hpil & Hclient & Hconfig & Hresp).
  unfold generate_post_image.
  assert (Ek : truthy (GEMINI_API_KEY env) = true)
    by (destruct (GEMINI_API_KEY env); [congruence | reflexivity]).
  rewrite Ek. cbn [negb]. cbv zeta.
  rewrite snd_bind, Hdirs, snd_bind, Hrefs, snd_bind. cbn [emit snd].
  rewrite Hgenai. cbn [negb]. rewrite snd_bind. cbn [emit snd].
  rewrite Hpil. cbn [negb].
  rewrite !snd_try_except. f_equal.
  unfold request. cbv zeta.
  rewrite snd_bind. cbn [emit snd].
  rewrite snd_bind. cbn [lift snd]. rewrite Hclient.
  rewrite snd_bind. cbn [lift snd]. rewrite Hconfig.
  rewrite snd_bind. cbn [emit snd].
  rewrite snd_bind. cbn [lift snd]. rewrite contents_cons, Hresp.
  reflexivity.
Qed.

Lemma bind_lift_ok {A B} (a : A) (k : A -> M B) : bind (lift (Ok a)) k = k a.
Proof. unfold bind, lift. now destruct (k a). Qed.

Lemma save_response_none env topic response ps :
  parts response = Ok ps -> image_bytes env ps = Ok None ->
  save_response env topic response
  = ([], Ok (None, Some (lit "No image in Gemini response"))).
Proof.
  intros Hp Hb. unfold save_response.
  now rewrite Hp, bind_lift_ok, Hb, bind_lift_ok.
Qed.

Lemma save_response_found env topic response ps b :
  parts response = Ok ps -> image_bytes env ps = Ok (Some b) -> b <> [] ->
  save_response env topic response = persist env topic b.
Proof.
  intros Hp Hb Hne. unfold save_response.
  rewrite Hp, bind_lift_ok, Hb, bind_lift_ok.
  destruct b as [|c b]; [congruence | reflexivity].
Qed.

Lemma chosen_parts_sound response ps :
  chosen_parts response ps -> parts response = Ok ps.
Proof.
  unfold parts. destruct 1 as [ps Hf | ps Hf Hn | Hf Hn]; rewrite Hf.
  - reflexivity.
  - unfold nested_parts in Hn.
    destruct (resp_candidates response) as [| |[|cand cands]]; try discriminate.
    destruct (cand_content cand) as [| |content]; try discriminate.
    now rewrite Hn.
  - unfold nested_parts in Hn.
    destruct (resp_candidates response) as [| |[|cand cands]]; try reflexivity.
    destruct (cand_content cand) as [| |content]; try reflexivity.
    now rewrite Hn.
Qed.

Lemma yields_sound env part b : yields env part b -> part_bytes env part = Ok (Some b).
Proof.
  unfold part_bytes. destruct 1 as [img b Ha Hs | blob data b Ha Hi Hp Ht Hd].
  - unfold accessor_bytes. now rewrite Ha, Hs.
  - rewrite Ha. unfold inline_bytes. now rewrite Hi, Hp, Ht, Hd.
Qed.

Lemma yields_nothing_sound env part :
  yields_nothing env part -> part_bytes env part = Ok None.
Proof.
  intros [Ha Hi]. unfold part_bytes. rewrite Ha. unfold inline_bytes.
  destruct (inline_data part) as [| |blob]; try reflexivity.
  specialize (Hi blob eq_refl).
  destruct (payload blob) as [data|]; [now rewrite Hi | reflexivity].
Qed.

(** The loop passes over the parts that yield nothing. *)
Lemma image_bytes_skip env pre ps :
  Forall (yields_nothing env) pre ->
  image_bytes env (pre ++ ps) = image_bytes env ps.
Proof.
  induction 1 as [|part pre Hp _ IH]; [reflexivity|].
  cbn [app image_bytes]. now rewrite (yields_nothing_sound env part Hp).
Qed.

Lemma image_bytes_nothing env ps :
  Forall (yields_nothing env) ps -> image_bytes env ps = Ok None.
Proof.
  intros H. rewrite <- (app_nil_r ps). now rewrite image_bytes_skip.
Qed.

(** ... and stops at the first one that yields bytes. *)
Lemma image_bytes_first env pre part post b :
  Forall (yields_nothing env) pre -> yields env part b ->
  image_bytes env (pre ++ part :: post) = Ok (Some b).
Proof.
  intros Hpre Hy. rewrite image_bytes_skip by exact Hpre.
  cbn [image_bytes]. now rewrite (yields_sound env part b Hy).
Qed.

(** A flat list, whatever it holds, keeps the candidates out of sight. *)
Lemma parts_ignores_candidates flat cands cands' :
  flat <> NoAttr ->
  parts {| resp_parts := flat; resp_candidates := cands' |}
  = parts {| resp_parts := flat; resp_candidates := cands |}.
Proof. intros H. unfold parts. cbn. destruct flat; [congruence | |]; reflexivity. Qed.

(** C10: when the response has the flat [parts] attribute, what lies under
    its candidates changes nothing; with an empty flat list the call returns
    the no-image error even if the first candidate carries an image. *)
Theorem flat_parts_hide_candidates env topic style td hc rd refs
    (flat : attr (list Part)) (cands : attr (list Candidate)) :
  flat <> NoAttr ->
  reaches env topic td hc rd refs
    {| resp_parts := flat; resp_candidates := cands |} ->
  (forall cands',
      save_response env topic {| resp_parts := flat; resp_candidates := cands' |}
      = save_response env topic {| resp_parts := flat; resp_candidates := cands |})
  /\ (flat = Has [] ->
      snd (generate_post_image env topic style td hc rd)
      = Ok (None, Some (lit "No image in Gemini response"))).
Proof.
  intros Hflat Hreach. split.
  - intros cands'. unfold save_response.
    now rewrite (parts_ignores_candidates flat cands cands' Hflat).
  - intros ->. rewrite (reaches_outcome _ _ style _ _ _ _ _ Hreach).
    rewrite (save_response_none env topic _ []); reflexivity.
Qed.

Lemma flat_parts_hide_candidates_witness :
  let env := Sample.good Sample.shadowed_response in
  usable env Sample.inline_part = Some Sample.png_magic
  /\ snd (generate_post_image env Sample.topic [] None None None)
     = Ok (None, Some (lit "No image in Gemini response")).
Proof.
  cbv zeta. split; [reflexivity|].
  refine (proj2 (flat_parts_hide_candidates
                   (Sample.good Sample.shadowed_response) Sample.topic []
                   None None None [RGBImage [x02]] (Has [])
                   (Sample.nested [Sample.inline_part]) _ _) eq_refl).
  - discriminate.
  - unfold reaches. repeat split; try (vm_compute; reflexivity).
    vm_compute; discriminate.
Defined.

(** C3, as the code has it.  The decoder walks the flat part list when the
    response has one and only otherwise the list under the first candidate's
    content.  If every part of that list yields nothing, the call returns the
    no-image error; if a part yields non-empty bytes, through the accessor or
    else through its inline data, and the parts before it yield nothing, the
    loop stops there and those bytes are what is saved. *)
Theorem response_decoding env topic style td hc rd refs response ps :
  reaches env topic td hc rd refs response ->
  chosen_parts response ps ->
  (Forall (yields_nothing env) ps ->
   snd (generate_post_image env topic style td hc rd)
   = Ok (None, Some (lit "No image in Gemini response")))
  /\ (forall pre part post b,
        ps = pre ++ part :: post ->
        Forall (yields_nothing env) pre -> yields env part b -> b <> [] ->
        image_bytes env ps = Ok (Some b)
        /\ snd (generate_post_image env topic style td hc rd)
           = snd (try_except (persist env topic b) on_exception)).
Proof.
  intros Hreach Hps. apply chosen_parts_sound in Hps.
  rewrite (reaches_outcome _ _ style _ _ _ _ _ Hreach). split.
  - intros Hnone.
    rewrite (save_response_none env topic response ps Hps); [reflexivity|].
    now apply image_bytes_nothing.
  - intros pre part post b -> Hpre Hy Hb.
    pose proof (image_bytes_first env pre part post b Hpre Hy) as Hfound.
    split; [exact Hfound|].
    now rewrite (save_response_found env topic response _ b Hps Hfound Hb).
Qed.

Lemma response_decoding_witness :
  let env := Sample.good Sample.nested_response in
  image_bytes env [Sample.text_part; Sample.inline_part] = Ok (Some Sample.png_magic)
  /\ snd (generate_post_image env Sample.topic [] None None None)
     = snd (try_except (persist env Sample.topic Sample.png_magic) on_exception).
Proof.
  cbv zeta.
  refine (proj2 (response_decoding (Sample.good Sample.nested_response)
                   Sample.topic [] None None None [RGBImage [x02]]
                   Sample.nested_response
                   [Sample.text_part; Sample.inline_part] _ _)
            [Sample.text_part] Sample.inline_part [] Sample.png_magic
            eq_refl _ _ _).
  - unfold reaches. repeat split; try (vm_compute; reflexivity).
    vm_compute; discriminate.
  - apply chosen_nested; reflexivity.
  - constructor; [|constructor]. split; [reflexivity|]. intros blob H.
    discriminate H.
  - eapply yields_inline; try reflexivity.
  - discriminate.
Defined.

(** C3 as stated fails: with an empty flat list and an image under the first
    candidate, the search in the order flat-then-nested meets usable bytes,
    yet the call returns the no-image error and saves nothing. *)
Lemma decoding_never_reaches_nested_parts :
  let env := Sample.good Sample.shadowed_response in
  reaches env Sample.topic None None None [RGBImage [x02]] Sample.shadowed_response
  /\ spec_image_bytes env Sample.shadowed_response = Some Sample.png_magic
  /\ snd (generate_post_image env Sample.topic [] None None None)
     = Ok (None, Some (lit "No image in Gemini response"))
  /\ ~ decoding_as_specified env Sample.topic [] None None None
         Sample.shadowed_response.
Proof.
  cbv zeta. split.
  { unfold reaches. repeat split; try (vm_compute; reflexivity).
    vm_compute; discriminate. }
  split; [reflexivity|]. split; [vm_compute; reflexivity|].
  unfold decoding_as_specified. vm_compute. discriminate.
Qed.

(** ** Reference images *)

Lemma insert_desc_perm x l : Permutation (insert_desc x l) (x :: l).
Proof.
  induction l as [|y l IH]; cbn [insert_desc]; [reflexivity|].
  destruct (fst x <? fst y)%Z; [|reflexivity].
  rewrite IH. apply perm_swap.
Qed.

Lemma sorted_desc_perm l : Permutation (sorted_desc l) l.
Proof.
  induction l as [|x l IH]; [reflexivity|].
  cbn [sorted_desc fold_right]. fold (sorted_desc l).
  rewrite insert_desc_perm. now constructor.
Qed.

Lemma insert_desc_sorted x l :
  StronglySorted newer_first l -> StronglySorted newer_first (insert_desc x l).
Proof.
  induction 1 as [|y l Hl IH Hy]; cbn [insert_desc].
  - repeat constructor.
  - destruct (fst x <? fst y)%Z eqn:E.
    + apply Z.ltb_lt in E. constructor; [exact IH|].
      rewrite (Forall_forall (newer_first y)). intros z Hz.
      apply (Permutation_in _ (insert_desc_perm x l)) in Hz.
      destruct Hz as [<-|Hz].
      * unfold newer_first. lia.
      * rewrite Forall_forall in Hy. now apply Hy.
    + apply Z.ltb_ge in E. constructor; [now constructor|].
      constructor; [exact E|].
      eapply Forall_impl; [|exact Hy].
      unfold newer_first. intros z Hz. lia.
Qed.

Lemma sorted_desc_sorted l : StronglySorted newer_first (sorted_desc l).
Proof.
  induction l as [|x l IH]; [constructor|].
  cbn [sorted_desc fold_right]. now apply insert_desc_sorted.
Qed.

(** In a sorted list every element of a front segment comes before every
    element of the rest. *)
Lemma sorted_app_cross {A} (R : A -> A -> Prop) l1 l2 :
  StronglySorted R (l1 ++ l2) ->
  StronglySorted R l1 /\ forall a b, In a l1 -> In b l2 -> R a b.
Proof.
  induction l1 as [|x l1 IH]; cbn [app]; intros H.
  - split; [constructor | intros a b []].
  - inversion H as [|? ? Hs Hx]; subst.
    destruct (IH Hs) as [Hs1 Hcross].
    apply Forall_app in Hx as [Hx1 Hx2]. split; [now constructor|].
    intros a b [<-|Ha] Hb.
    + rewrite Forall_forall in Hx2. now apply Hx2.
    + now apply Hcross.
Qed.

Lemma stat_keys_ok fs ks :
  keyed_by_mtime fs ks -> snd (stat_keys fs) = Ok ks.
Proof.
  induction 1 as [|f [m g] fs ks [Hm Hg] _ IH]; [reflexivity|].
  cbn [fst snd] in Hm, Hg. subst g. cbn [stat_keys].
  rewrite snd_bind. cbn [emit snd]. rewrite snd_bind. cbn [lift snd].
  rewrite Hm, snd_bind, IH. reflexivity.
Qed.

(** The loading loop never raises and keeps exactly the files that
    decode. *)
Lemma load_loop_ok fs : snd (load_loop fs) = Ok (decoded fs).
Proof.
  induction fs as [|f fs IH]; [reflexivity|].
  cbn [load_loop decoded flat_map]. fold (decoded fs).
  rewrite snd_bind, snd_try_except, snd_bind. cbn [emit snd].
  rewrite snd_bind. cbn [lift snd].
  destruct (f_open f) as [img|e]; cbn [ret snd]; rewrite snd_bind, IH;
    reflexivity.
Qed.

Lemma decoded_length fs : (List.length (decoded fs) <= List.length fs)%nat.
Proof.
  induction fs as [|f fs IH]; [reflexivity|].
  cbn [decoded flat_map]. fold (decoded fs). rewrite length_app.
  destruct (f_open f); cbn [List.length]; lia.
Qed.

Lemma pystr_eqb_eq a b : pystr_eqb a b = true -> a = b.
Proof. unfold pystr_eqb. destruct (list_eq_dec N.eq_dec a b); congruence. Qed.

Lemma is_supported_suffix f :
  is_supported f = true -> In (lower (suffix (f_name f))) supported.
Proof.
  unfold is_supported. rewrite existsb_exists. intros (x & Hx & E).
  apply pystr_eqb_eq in E. now subst x.
Qed.

Lemma keyed_by_mtime_in fs ks k :
  keyed_by_mtime fs ks -> In k ks -> In (snd k) fs /\ f_mtime (snd k) = Ok (fst k).
Proof.
  induction 1 as [|f k' fs ks [Hm Hg] _ IH]; intros Hin; [destruct Hin|].
  destruct Hin as [->|Hin].
  - rewrite Hg. split; [now left | exact Hm].
  - destruct (IH Hin) as [H1 H2]. split; [now right | exact H2].
Qed.

(** C5.  Without the directory, or without the imaging package, the loader
    returns the empty list and raises nothing.  Otherwise, once the supported
    files are paired with their modification times, it returns the images
    that decode among the (at most) two most recently modified supported
    files, newest first: at most 2 images, and a file that does not decode is
    left out while the others are kept. *)
Theorem reference_images_selection env d :
  _load_reference_images env None 2 = ([], Ok [])
  /\ (fs_exists env d = false ->
   snd (_load_reference_images env (Some d) 2) = Ok [])
  /\ (pil_installed env = false ->
      snd (_load_reference_images env (Some d) 2) = Ok [])
  /\ (forall entries ks,
        fs_exists env d = true -> pil_installed env = true ->
        fs_iterdir env d = Ok entries ->
        keyed_by_mtime (filter is_supported entries) ks ->
        exists sel rest,
          Permutation (sel ++ rest) ks
          /\ List.length sel = Nat.min 2 (List.length ks)
          /\ StronglySorted newer_first sel
          /\ (forall a b, In a sel -> In b rest -> newer_first a b)
          /\ Forall (fun k => In (snd k) entries
                              /\ In (lower (suffix (f_name (snd k)))) supported
                              /\ f_mtime (snd k) = Ok (fst k)) sel
          /\ snd (_load_reference_images env (Some d) 2)
             = Ok (decoded (map snd sel))
          /\ (List.length (decoded (map snd sel)) <= 2)%nat).
Proof.
  unfold _load_reference_images. split; [reflexivity|]. split; [|split].
  - intros ->. reflexivity.
  - intros ->. destruct (fs_exists env d); reflexivity.
  - intros entries ks -> -> Hls Hks. cbn [negb].
    set (sorted := sorted_desc ks).
    assert (Hperm : Permutation sorted ks) by apply sorted_desc_perm.
    assert (Hcut : sorted = firstn 2 sorted ++ skipn 2 sorted)
      by (symmetry; apply firstn_skipn).
    pose proof (sorted_desc_sorted ks) as Hs. fold sorted in Hs.
    rewrite Hcut in Hs. apply sorted_app_cross in Hs as [Hs Hcross].
    exists (firstn 2 sorted), (skipn 2 sorted).
    assert (Hlen : List.length (firstn 2 sorted) = Nat.min 2 (List.length ks)).
    { rewrite length_firstn. now rewrite (Permutation_length Hperm). }
    repeat split.
    + now rewrite <- Hcut.
    + exact Hlen.
    + exact Hs.
    + exact Hcross.
    + rewrite Forall_forall. intros k Hk.
      assert (Hin : In k ks).
      { apply (Permutation_in _ Hperm). rewrite Hcut.
        apply in_or_app. now left. }
      destruct (keyed_by_mtime_in _ _ _ Hks Hin) as [Hf Hm].
      apply filter_In in Hf as [Hf Hsup].
      repeat split; [exact Hf | now apply is_supported_suffix | exact Hm].
    + rewrite snd_bind. cbn [emit snd]. rewrite snd_bind. cbn [emit snd].
      rewrite snd_bind. cbn [emit snd]. rewrite snd_bind. cbn [lift snd].
      rewrite Hls, snd_bind, (stat_keys_ok _ _ Hks).
      fold sorted. rewrite <- firstn_map. apply load_loop_ok.
    + etransitivity; [apply decoded_length|].
      rewrite length_map, Hlen. apply Nat.le_min_l.
Qed.

Lemma reference_images_selection_witness :
  let env := Sample.good Sample.flat_response in
  let ks := [ (100%Z, Sample.old_png); (300%Z, Sample.new_jpg);
              (200%Z, Sample.mid_webp); (50%Z, Sample.oldest_jpeg) ] in
  snd (_load_reference_images env (Some (IMAGES_DIR env)) 2) = Ok [RGBImage [x02]]
  /\ exists sel rest,
       Permutation (sel ++ rest) ks
       /\ List.length sel = Nat.min 2 (List.length ks)
       /\ StronglySorted newer_first sel
       /\ (forall a b, In a sel -> In b rest -> newer_first a b)
       /\ Forall (fun k => In (snd k) Sample.entries
                           /\ In (lower (suffix (f_name (snd k)))) supported
                           /\ f_mtime (snd k) = Ok (fst k)) sel
       /\ snd (_load_reference_images env (Some (IMAGES_DIR env)) 2)
          = Ok (decoded (map snd sel))
       /\ (List.length (decoded (map snd sel)) <= 2)%nat.
Proof.
  cbv zeta. split; [vm_compute; reflexivity|].
  apply (proj2 (proj2 (proj2 (reference_images_selection
                         (Sample.good Sample.flat_response)
                         (IMAGES_DIR (Sample.good Sample.flat_response)))))
           Sample.entries).
  - reflexivity.
  - reflexivity.
  - reflexivity.
  - repeat constructor.
Defined.

(** A part whose inline text does not decode ends the search with the
    decoder's message, whatever the parts after it hold. *)
Lemma decoding_aborts_on_undecodable_text :
  let env := Sample.good Sample.garbled_response in
  spec_image_bytes env Sample.garbled_response = Some Sample.png_magic
  /\ snd (generate_post_image env Sample.topic [] None None None)
     = Ok (None, Some (lit "Incorrect padding")).
Proof. cbv zeta. split; [reflexivity | vm_compute; reflexivity]. Qed.

(** * Further properties *)

(** ** Stripping *)

Lemma lstrip_length s : (List.length (lstrip s) <= List.length s)%nat.
Proof.
  induction s as [|c s IH]; [reflexivity|].
  simpl. destruct (isspace c); simpl; lia.
Qed.

Lemma lstrip_fixed_head c s : lstrip (c :: s) = c :: s -> isspace c = false.
Proof.
  simpl. destruct (isspace c); [|reflexivity].
  intros H. pose proof (lstrip_length s) as L. rewrite H in L. simpl in L. lia.
Qed.

Lemma lstrip_idem s : lstrip (lstrip s) = lstrip s.
Proof.
  induction s as [|c s IH]; [reflexivity|].
  simpl. destruct (isspace c) eqn:E; [exact IH|]. simpl. now rewrite E.
Qed.

Lemma lstrip_snoc_nonspace l c :
  isspace c = false -> exists l', lstrip (l ++ [c]) = l' ++ [c].
Proof.
  intros Hc. induction l as [|a l [l' IH]].
  - exists []. simpl. now rewrite Hc.
  - simpl. destruct (isspace a).
    + now exists l'.
    + now exists (a :: l).
Qed.

Lemma rstrip_idem s : rstrip (rstrip s) = rstrip s.
Proof. unfold rstrip. now rewrite rev_involutive, lstrip_idem. Qed.

Lemma lstrip_rstrip s : lstrip s = s -> lstrip (rstrip s) = rstrip s.
Proof.
  destruct s as [|c s]; [reflexivity|]. intros H.
  pose proof (lstrip_fixed_head c s H) as Hc.
  unfold rstrip. cbn [rev].
  destruct (lstrip_snoc_nonspace (rev s) c Hc) as [l' ->].
  rewrite rev_app_distr. simpl. now rewrite Hc.
Qed.

Lemma strip_trimmed s : trimmed (strip s).
Proof.
  unfold trimmed, strip. split.
  - apply lstrip_rstrip, lstrip_idem.
  - apply rstrip_idem.
Qed.

Lemma has_nonspace_strip s : has_nonspace (strip s) = has_nonspace s.
Proof. now rewrite <- !truthy_split, split_strip. Qed.

(** ** More on the headline *)

Lemma headline_is_join topic hero_copy :
  exists ws, Forall word ws /\ (List.length ws <= 10)%nat
             /\ headline topic hero_copy = join (lit " ") ws.
Proof.
  destruct hero_copy as [h|]; [destruct (has_nonspace h) eqn:Hh|].
  - exists (firstn 10 (split h)). repeat split.
    + apply Forall_firstn, split_words.
    + apply firstn_le_length.
    + now apply headline_from_hero.
  - exists (firstn 8 (split topic)). repeat split.
    + apply Forall_firstn, split_words.
    + etransitivity; [apply firstn_le_length | lia].
    + now apply headline_from_topic.
  - exists (firstn 8 (split topic)). repeat split.
    + apply Forall_firstn, split_words.
    + etransitivity; [apply firstn_le_length | lia].
    + now apply headline_from_topic.
Qed.

(** X1: the headline is empty exactly when [topic] is blank and [hero_copy]
    is absent or blank; any visible character in either gives a headline. *)
Theorem headline_empty_iff (topic : pystr) (hero_copy : option pystr) :
  headline topic hero_copy = []
  <-> has_nonspace topic = false
      /\ match hero_copy with
         | Some h => has_nonspace h = false
         | None => True
         end.
Proof.
  split.
  - intros Hnil. apply truthy_nil_iff in Hnil.
    assert (Hhero : match hero_copy with
                    | Some h => has_nonspace h = false
                    | None => True
                    end).
    { destruct hero_copy as [h|]; [|exact I].
      destruct (has_nonspace h) eqn:Hh; [|reflexivity].
      rewrite (headline_from_hero topic h Hh), (join_firstn_truthy 9 h Hh) in Hnil.
      discriminate. }
    split; [|exact Hhero].
    rewrite (headline_from_topic topic hero_copy Hhero) in Hnil.
    destruct (has_nonspace topic) eqn:Ht; [|reflexivity].
    rewrite (join_firstn_truthy 7 topic Ht) in Hnil. discriminate.
  - intros [Ht Hhero]. rewrite (headline_from_topic topic hero_copy Hhero).
    rewrite <- truthy_split in Ht. apply truthy_nil_iff in Ht.
    now rewrite Ht.
Qed.

(** X2: whatever the inputs, the headline is white-space normalised and
    short: rebuilding it from its own tokens with single spaces gives it
    back, and it has at most 10 tokens. *)
Theorem headline_normalised (topic : pystr) (hero_copy : option pystr) :
  join (lit " ") (split (headline topic hero_copy)) = headline topic hero_copy
  /\ (List.length (split (headline topic hero_copy)) <= 10)%nat.
Proof.
  destruct (headline_is_join topic hero_copy) as (ws & Hws & Hlen & ->).
  rewrite (split_join ws Hws). split; [reflexivity | exact Hlen].
Qed.

(** ** The template *)

(** X3: the template put into the prompt is never blank: an override that
    holds a visible character is used stripped, an absent or blank one gives
    the branded default. *)
Theorem template_never_blank (template_description : option pystr) :
  has_nonspace (template template_description) = true
  /\ match template_description with
     | Some t =>
         if has_nonspace t
         then template template_description = strip t /\ trimmed (strip t)
         else template template_description = TEKSPOT_TEMPLATE
     | None => template template_description = TEKSPOT_TEMPLATE
     end.
Proof.
  assert (Hd : has_nonspace TEKSPOT_TEMPLATE = true) by (vm_compute; reflexivity).
  unfold template. destruct template_description as [t|]; [|now split].
  rewrite truthy_strip. destruct (has_nonspace t) eqn:Ht.
  - rewrite (has_nonspace_truthy t Ht). cbn [andb].
    rewrite has_nonspace_strip. repeat split; trivial; apply strip_trimmed.
  - rewrite andb_false_r. now split.
Qed.

(** ** Configuration *)

Lemma key_unset_empty env : key_unset env -> GEMINI_API_KEY env = [].
Proof.
  unfold key_unset, GEMINI_API_KEY, getenv_default.
  destruct (os_getenv env (lit "GEMINI_API_KEY")) as [v|]; intros H.
  - apply truthy_nil_iff. now rewrite truthy_strip.
  - reflexivity.
Qed.

(** X4: a key variable that is unset, empty or all white space counts as no
    key: the call returns the configuration error and performs nothing. *)
Theorem blank_key_is_no_key env topic style td hc rd :
  key_unset env ->
  generate_post_image env topic style td hc rd
  = ([], Ok (None, Some (lit "GEMINI_API_KEY is not set in .env"))).
Proof.
  intros H. unfold generate_post_image.
  now rewrite (key_unset_empty env H).
Qed.

Lemma blank_key_is_no_key_witness :
  let env := Sample.world (Some (lit " 	 ")) (Ok tt) (Ok Sample.entries)
               (Ok Sample.flat_response) in
  key_unset env
  /\ generate_post_image env Sample.topic [] None None None
     = ([], Ok (None, Some (lit "GEMINI_API_KEY is not set in .env"))).
Proof.
  cbv zeta. split; [reflexivity|].
  apply blank_key_is_no_key. reflexivity.
Defined.

(** ** Running computations step by step *)

Lemma bind_ok {A B} (m : M A) (k : A -> M B) a :
  snd m = Ok a -> bind m k = (fst m ++ fst (k a), snd (k a)).
Proof. destruct m as [t r]. simpl. intros ->. simpl. now destruct (k a). Qed.

Lemma bind_raise {A B} (m : M A) (k : A -> M B) e :
  snd m = Raise e -> bind m k = (fst m, Raise e).
Proof. destruct m as [t r]. simpl. now intros ->. Qed.

Lemma bind_emit {B} ev (k : unit -> M B) :
  bind (emit ev) k = (ev :: fst (k tt), snd (k tt)).
Proof. unfold bind, emit. now destruct (k tt). Qed.

Lemma bind_lift_raise {A B} e (k : A -> M B) : bind (lift (Raise e)) k = ([], Raise e).
Proof. reflexivity. Qed.

Lemma try_except_ok {A} (m : M A) h a :
  snd m = Ok a -> try_except m h = (fst m, Ok a).
Proof. destruct m as [t r]. simpl. now intros ->. Qed.

Lemma try_except_raise {A} (m : M A) h e :
  snd m = Raise e -> try_except m h = (fst m ++ fst (h e), snd (h e)).
Proof. destruct m as [t r]. simpl. intros ->. now destruct (h e). Qed.

(** A continuation may rely on what the first computation returns. *)
Lemma performs_only_bind_with {A B} (P : A -> Prop) (Q : event -> Prop)
    (m : M A) (k : A -> M B) :
  returns_only P m -> performs_only Q m ->
  (forall a, P a -> performs_only Q (k a)) ->
  performs_only Q (bind m k).
Proof.
  unfold returns_only, performs_only. intros Hp Hm Hk. rewrite fst_bind.
  destruct (snd m) as [a|e]; [|exact Hm].
  apply Forall_app. split; [exact Hm | now apply Hk].
Qed.

Lemma returns_only_self {A} (m : M A) : returns_only (fun a => snd m = Ok a) m.
Proof. unfold returns_only. now destruct (snd m). Qed.

Lemma count_events_app f t1 t2 :
  count_events f (t1 ++ t2) = (count_events f t1 + count_events f t2)%nat.
Proof. unfold count_events. now rewrite filter_app, length_app. Qed.

Lemma count_bind_le {A B} f (m : M A) (k : A -> M B) c1 c2 :
  (count_events f (fst m) <= c1)%nat ->
  (forall a, count_events f (fst (k a)) <= c2)%nat ->
  (count_events f (fst (bind m k)) <= c1 + c2)%nat.
Proof.
  intros Hm Hk. rewrite fst_bind. destruct (snd m) as [a|e]; [|lia].
  rewrite count_events_app. specialize (Hk a). lia.
Qed.

Lemma count_try_le {A} f (m : M A) (h : exn -> M A) c1 c2 :
  (count_events f (fst m) <= c1)%nat ->
  (forall e, count_events f (fst (h e)) <= c2)%nat ->
  (count_events f (fst (try_except m h)) <= c1 + c2)%nat.
Proof.
  intros Hm Hh. rewrite fst_try_except. destruct (snd m) as [a|e]; [lia|].
  rewrite count_events_app. specialize (Hh e). lia.
Qed.

(** Operations that [f] rejects do not count. *)
Lemma count_none {A} f (Q : event -> Prop) (m : M A) :
  (forall ev, Q ev -> f ev = false) -> performs_only Q m ->
  count_events f (fst m) = 0%nat.
Proof.
  unfold performs_only, count_events. intros HQ H.
  induction H as [|ev t Hev _ IH]; [reflexivity|].
  simpl. now rewrite (HQ ev Hev).
Qed.

(** ** More on the reference images *)

(** The loop tries every file it is given, once and in order, whether or
    not it decodes. *)
Lemma fst_load_loop fs :
  fst (load_loop fs) = map (fun f => EvImageOpen (f_name f)) fs.
Proof.
  induction fs as [|f fs IH]; [reflexivity|].
  cbn [load_loop map]. rewrite fst_bind, snd_try_except, fst_try_except, snd_bind.
  cbn [emit snd]. rewrite snd_bind, fst_bind. cbn [emit lift fst snd].
  rewrite fst_bind. cbn [lift fst snd].
  destruct (f_open f) as [img|e]; cbn [ret fst snd app];
    rewrite fst_bind, load_loop_ok, IH; cbn [ret fst]; now rewrite app_nil_r.
Qed.

Lemma stat_keys_keyed fs : returns_only (keyed_by_mtime fs) (stat_keys fs).
Proof.
  unfold returns_only. induction fs as [|f fs IH]; [constructor|].
  cbn [stat_keys]. rewrite snd_bind. cbn [emit snd]. rewrite snd_bind.
  cbn [lift snd]. destruct (f_mtime f) as [m|e] eqn:Hm; [|exact I].
  rewrite snd_bind. destruct (snd (stat_keys fs)) as [ks|e]; [|exact I].
  cbn [ret snd]. constructor; [now split | exact IH].
Qed.

Lemma stat_keys_events fs :
  performs_only (fun ev => exists f, In f fs /\ ev = EvStat (f_name f))
    (stat_keys fs).
Proof.
  induction fs as [|f fs IH]; cbn [stat_keys]; effects.
  - exists f. split; [now left | reflexivity].
  - eapply Forall_impl; [|exact IH].
    intros ev (g & Hg & ->). exists g. split; [now right | reflexivity].
Qed.

(** Listing the keys only queries modification times. *)
Lemma stat_keys_counts f fs :
  (forall name, f (EvStat name) = false) ->
  count_events f (fst (stat_keys fs)) = 0%nat.
Proof.
  intros Hf. eapply count_none; [|apply stat_keys_events].
  intros ev (g & _ & ->). apply Hf.
Qed.

Lemma stat_keys_raise pre f post e :
  Forall (fun g => exists m, f_mtime g = Ok m) pre ->
  f_mtime f = Raise e ->
  snd (stat_keys (pre ++ f :: post)) = Raise e.
Proof.
  intros Hpre Hf. induction Hpre as [|g pre [m Hg] _ IH]; cbn [app stat_keys].
  - rewrite snd_bind. cbn [emit snd]. rewrite snd_bind. cbn [lift snd].
    now rewrite Hf.
  - rewrite snd_bind. cbn [emit snd]. rewrite snd_bind. cbn [lift snd].
    now rewrite Hg, snd_bind, IH.
Qed.

Lemma in_firstn {A} n (l : list A) x : In x (firstn n l) -> In x l.
Proof.
  intros H. rewrite <- (firstn_skipn n l). apply in_or_app. now left.
Qed.


Lemma selection_in_listing entries ks n f :
  keyed_by_mtime (filter is_supported entries) ks ->
  In f (firstn n (map snd (sorted_desc ks))) ->
  In f entries /\ is_supported f = true.
Proof.
  intros Hks Hf. apply in_firstn in Hf. apply in_map_iff in Hf as (k & <- & Hk).
  apply (Permutation_in _ (sorted_desc_perm ks)) in Hk.
  destruct (keyed_by_mtime_in _ _ _ Hks Hk) as [Hin _].
  now apply filter_In in Hin.
Qed.

Lemma load_reference_images_length env images_dir max_count :
  returns_only (fun imgs => (List.length imgs <= max_count)%nat)
    (_load_reference_images env images_dir max_count).
Proof.
  unfold _load_reference_images. destruct images_dir as [d|]; [|cbn; lia].
  apply returns_only_bind; intros _.
  destruct (negb (fs_exists env d)); [cbn; lia|].
  apply returns_only_bind; intros _.
  destruct (negb (pil_installed env)); [cbn; lia|].
  do 3 (apply returns_only_bind; intro). cbv zeta.
  unfold returns_only. rewrite load_loop_ok.
  etransitivity; [apply decoded_length|]. apply firstn_le_length.
Qed.


Lemma load_reference_images_touches env (d : path) (max_count : nat) :
  performs_only (loader_touches (entries_of env d) d)
    (_load_reference_images env (Some d) max_count).
Proof.
  unfold _load_reference_images, entries_of.

  apply performs_only_bind; [apply performs_only_emit; reflexivity | intros _].
  destruct (negb (fs_exists env d)); [apply performs_only_nil|].
  apply performs_only_bind; [apply performs_only_emit; reflexivity | intros _].
  destruct (negb (pil_installed env)); [apply performs_only_nil|].
  apply performs_only_bind; [apply performs_only_emit; reflexivity | intros _].
  destruct (fs_iterdir env d) as [entries|e];
    [rewrite bind_lift_ok | rewrite bind_lift_raise; constructor].
  apply (performs_only_bind_with
           (keyed_by_mtime (filter is_supported entries))).
  - apply stat_keys_keyed.
  - eapply Forall_impl; [|apply stat_keys_events].
    intros ev (f & Hf & ->). apply filter_In in Hf as [Hin Hsup].
    now exists f.
  - intros ks Hks. cbv zeta. unfold performs_only. rewrite fst_load_loop.
    apply Forall_map, Forall_forall. intros f Hf.
    destruct (selection_in_listing entries ks max_count f Hks Hf) as [Hin Hsup].
    now exists f.
Qed.

(** X6: the loader only looks: it checks and lists the one directory it
    was given, imports the imaging package, and queries or opens entries of
    that listing with a supported extension; it never touches another entry,
    creates or writes anything, or reaches the remote service. *)
Theorem loader_touches_supported_only env (d : path) (max_count : nat) :
  performs_only (loader_touches (entries_of env d) d)
    (_load_reference_images env (Some d) max_count)
  /\ count_events is_save (fst (_load_reference_images env (Some d) max_count))
     = 0%nat
  /\ count_events is_generate
       (fst (_load_reference_images env (Some d) max_count)) = 0%nat.
Proof.
  pose proof (load_reference_images_touches env d max_count) as H.
  split; [exact H|].
  split; (eapply count_none; [|exact H]); intros [] Hev; try reflexivity;
    destruct Hev.
Qed.

(** X7: an entry with a supported extension whose modification time cannot
    be read (a dangling link, a file removed meanwhile) makes the loader
    raise that error, before any image is opened, even when enough other
    files would decode. *)
Theorem loader_raises_on_stat_failure env (d : path) (max_count : nat)
    entries pre f post e :
  fs_exists env d = true -> pil_installed env = true ->
  fs_iterdir env d = Ok entries ->
  filter is_supported entries = pre ++ f :: post ->
  Forall (fun g => exists m, f_mtime g = Ok m) pre ->
  f_mtime f = Raise e ->
  snd (_load_reference_images env (Some d) max_count) = Raise e
  /\ count_events is_open (fst (_load_reference_images env (Some d) max_count))
     = 0%nat.
Proof.
  intros Hex Hpil Hls Hsplit Hpre Hf.
  pose proof (stat_keys_raise pre f post e Hpre Hf) as Hraise.
  unfold _load_reference_images. rewrite Hex, Hpil. cbn [negb].
  rewrite !bind_emit. cbn [fst snd]. rewrite Hls, bind_lift_ok, Hsplit.
  rewrite (bind_raise _ _ e Hraise). cbn [fst snd]. split; [reflexivity|].
  unfold count_events. cbn [filter is_open].
  apply (stat_keys_counts is_open). reflexivity.
Qed.

Lemma loader_raises_on_stat_failure_witness :
  let env := Sample.world (Some (lit "k3y")) (Ok tt) (Ok Edge.listing)
               (Ok Sample.flat_response) in
  snd (_load_reference_images env (Some (IMAGES_DIR env)) 2)
  = Raise Edge.FileNotFoundError
  /\ count_events is_open
       (fst (_load_reference_images env (Some (IMAGES_DIR env)) 2)) = 0%nat.
Proof.
  cbv zeta.
  apply (loader_raises_on_stat_failure _ _ 2 Edge.listing [Sample.old_png]
           Edge.gone_png [Sample.mid_webp]); try reflexivity.
  constructor; [|constructor]. now exists 100%Z.
Defined.

(** ** Order among equally old files *)

Lemma filter_insert_desc m x l :
  filter (fun k => (fst k =? m)%Z) (insert_desc x l)
  = filter (fun k => (fst k =? m)%Z) (x :: l).
Proof.
  induction l as [|y l IH]; [reflexivity|].
  cbn [insert_desc]. destruct (fst x <? fst y)%Z eqn:E; [|reflexivity].
  apply Z.ltb_lt in E. cbn [filter] in *. rewrite IH.
  destruct (fst x =? m)%Z eqn:Ex, (fst y =? m)%Z eqn:Ey; try reflexivity.
  apply Z.eqb_eq in Ex, Ey. lia.
Qed.

(** X8: sorting by modification time is stable: the files that share a
    modification time come out in the order in which the directory listed
    them. *)
Theorem sorted_desc_stable (m : Z) (l : list (Z * DirEntry)) :
  filter (fun k => (fst k =? m)%Z) (sorted_desc l)
  = filter (fun k => (fst k =? m)%Z) l.
Proof.
  induction l as [|x l IH]; [reflexivity|].
  cbn [sorted_desc fold_right]. fold (sorted_desc l).
  rewrite filter_insert_desc. cbn [filter]. now rewrite IH.
Qed.

Example twins_keep_listing_order :
  map (fun k => f_name (snd k))
    (sorted_desc [(70%Z, Edge.twin_a); (100%Z, Sample.old_png);
                  (70%Z, Edge.twin_b)])
  = [lit "old.png"; lit "a.png"; lit "b.png"].
Proof. reflexivity. Qed.

(** ** Extensions *)

Lemma lower_char_dot c : (lower_char c =? 46) = (c =? 46).
Proof.
  unfold lower_char.
  destruct ((65 <=? c) && (c <=? 90)) eqn:E; [|reflexivity].
  apply andb_true_iff in E as [E1 E2].
  apply N.leb_le in E1, E2.
  rewrite (proj2 (N.eqb_neq (c + 32) 46)) by lia.
  now rewrite (proj2 (N.eqb_neq c 46)) by lia.
Qed.

Lemma rfind_dot_lower s : rfind 46 (lower s) = rfind 46 s.
Proof.
  induction s as [|c s IH]; [reflexivity|].
  cbn [lower map rfind]. fold (lower s). now rewrite IH, lower_char_dot.
Qed.

Lemma suffix_lower s : suffix (lower s) = lower (suffix s).
Proof.
  unfold suffix. rewrite rfind_dot_lower.
  destruct (rfind 46 s) as [i|]; [|reflexivity].
  unfold lower at 1 2. rewrite length_map.
  destruct ((0 <? i)%nat && (i <? List.length s - 1)%nat); [|reflexivity].
  unfold lower. apply skipn_map.
Qed.

(** X9: the extension test is blind to letter case: two names that differ
    only in the case of ASCII letters are both candidates or both ignored. *)
Theorem supported_case_insensitive (f g : DirEntry) :
  lower (f_name f) = lower (f_name g) -> is_supported f = is_supported g.
Proof.
  intros H. unfold is_supported.
  now rewrite <- !suffix_lower, H.
Qed.

Lemma supported_case_insensitive_witness :
  is_supported Sample.new_jpg
  = is_supported {| f_name := lit "NEW.jpg"; f_mtime := Ok 1%Z;
                    f_open := Raise Sample.undecodable |}
  /\ is_supported Sample.new_jpg = true.
Proof.
  split; [|reflexivity].
  apply supported_case_insensitive. reflexivity.
Defined.

(** ** The call, step by step *)

Lemma ensure_dirs_quiet env : performs_only quiet (ensure_dirs env).
Proof. unfold ensure_dirs, mkdir. effects; repeat split. Qed.

Lemma ensure_dirs_ok_trace env :
  snd (ensure_dirs env) = Ok tt ->
  fst (ensure_dirs env) = [EvMkdir (DATA_DIR env); EvMkdir (OUTPUT_DIR env)].
Proof.
  unfold ensure_dirs, mkdir, bind, emit, lift.
  destruct (fs_mkdir env (DATA_DIR env)) as [[]|e]; [|discriminate].
  destruct (fs_mkdir env (OUTPUT_DIR env)) as [[]|e]; [reflexivity | discriminate].
Qed.

Lemma loader_quiet env d n : performs_only quiet (_load_reference_images env d n).
Proof.
  destruct d as [d|]; [|constructor].
  eapply Forall_impl; [|apply load_reference_images_touches].
  intros [] H; repeat split; destruct H.
Qed.

Lemma preamble_quiet env rd : Forall quiet (preamble env rd).
Proof.
  unfold preamble. repeat (apply Forall_app; split).
  - apply ensure_dirs_quiet.
  - apply loader_quiet.
  - repeat constructor.
Qed.

Lemma quiet_count f t :
  (forall ev, quiet ev -> f ev = false) -> Forall quiet t ->
  count_events f t = 0%nat.
Proof.
  intros Hf H. unfold count_events.
  induction H as [|ev t Hev _ IH]; [reflexivity|].
  simpl. now rewrite (Hf ev Hev).
Qed.

Lemma key_truthy env : GEMINI_API_KEY env <> [] -> truthy (GEMINI_API_KEY env) = true.
Proof. destruct (GEMINI_API_KEY env); [congruence | reflexivity]. Qed.

(** Up to the [try] the call is the preamble; from there on it is the
    request with its exceptions turned into messages. *)
Lemma in_try_run env topic style td hc rd refs :
  in_try env rd refs ->
  generate_post_image env topic style td hc rd
  = (preamble env rd
     ++ fst (try_except (request env topic (prompt topic td hc) refs) on_exception),
     snd (try_except (request env topic (prompt topic td hc) refs) on_exception)).
Proof.
  intros (Hkey & Hdirs & Hrefs & Hgenai & Hpil).
  unfold generate_post_image, preamble.
  rewrite (key_truthy env Hkey). cbn [negb]. cbv zeta.
  rewrite (bind_ok _ _ tt Hdirs). cbn [fst snd].
  rewrite (bind_ok _ _ refs Hrefs). cbn [fst snd].
  rewrite bind_emit, Hgenai. cbn [negb fst snd].
  rewrite bind_emit, Hpil. cbn [negb fst snd].
  rewrite <- !app_assoc. reflexivity.
Qed.

Lemma persist_run env topic data :
  persist env topic data
  = match PILImage_open env data with
    | Raise e => ([EvClock], Raise e)
    | Ok img =>
        let p := fpath env topic (time_time env) in
        match image_save env img p with
        | Raise e => ([EvClock; EvImageSave p data], Raise e)
        | Ok _ => ([EvClock; EvImageSave p data], Ok (Some p, None))
        end
    end.
Proof.
  unfold persist. cbv zeta. rewrite bind_emit. cbv beta.
  destruct (PILImage_open env data) as [img|e]; [|reflexivity].
  rewrite bind_lift_ok, bind_emit. cbv beta.
  destruct (image_save env img _) as [[]|e]; reflexivity.
Qed.

Lemma request_run env topic p refs :
  request env topic p refs
  = let key := GEMINI_API_KEY env in
    let model := GEMINI_IMAGE_MODEL env in
    let cs := Text p :: map Img refs in
    match genai_Client env key with
    | Raise e => ([EvClient key], Raise e)
    | Ok _ =>
        match genai_GenerateContentConfig env with
        | Raise e => ([EvClient key], Raise e)
        | Ok _ =>
            match generate_content env model cs with
            | Raise e => ([EvClient key; EvGenerate model cs], Raise e)
            | Ok response =>
                ([EvClient key; EvGenerate model cs]
                 ++ fst (save_response env topic response),
                 snd (save_response env topic response))
            end
        end
    end.
Proof.
  unfold request. cbv zeta. rewrite contents_cons, bind_emit. cbv beta.
  destruct (genai_Client env _) as [[]|e]; [|reflexivity].
  rewrite bind_lift_ok.
  destruct (genai_GenerateContentConfig env) as [[]|e]; [|reflexivity].
  rewrite bind_lift_ok, bind_emit. cbv beta.
  destruct (generate_content env _ _) as [response|e]; [|reflexivity].
  rewrite bind_lift_ok. reflexivity.
Qed.

Lemma save_response_run env topic response :
  save_response env topic response
  = match parts response with
    | Raise e => ([], Raise e)
    | Ok ps =>
        match image_bytes env ps with
        | Raise e => ([], Raise e)
        | Ok (Some ((_ :: _) as data)) => persist env topic data
        | Ok _ => ([], Ok (None, Some (lit "No image in Gemini response")))
        end
    end.
Proof.
  unfold save_response.
  destruct (parts response) as [ps|e]; [|reflexivity].
  rewrite bind_lift_ok.
  destruct (image_bytes env ps) as [[[|c b]|]|e]; try reflexivity.
  now rewrite bind_lift_ok.
Qed.

(** How often the request builds a client, calls the service and saves. *)
Lemma request_counts env topic p refs :
  (count_events is_client (fst (request env topic p refs)) <= 1)%nat
  /\ (count_events is_generate (fst (request env topic p refs)) <= 1)%nat
  /\ (count_events is_save (fst (request env topic p refs)) <= 1)%nat.
Proof.
  rewrite request_run. cbv zeta.
  destruct (genai_Client env _); [|cbn; lia].
  destruct (genai_GenerateContentConfig env); [|cbn; lia].
  destruct (generate_content env _ _) as [response|e]; [|cbn; lia].
  cbn [fst]. rewrite !count_events_app, save_response_run.
  destruct (parts response) as [ps|e]; [|cbn; lia].
  destruct (image_bytes env ps) as [[[|c b]|]|e]; try (cbn; lia).
  rewrite persist_run.
  destruct (PILImage_open env _); [|cbn; lia]. cbv zeta.
  destruct (image_save env _ _); cbn; lia.
Qed.

(** X10: one call builds at most one client, calls the remote service at
    most once and saves at most one file: nothing is retried. *)
Theorem no_retry env topic style td hc rd :
  let t := fst (generate_post_image env topic style td hc rd) in
  (count_events is_client t <= 1)%nat
  /\ (count_events is_generate t <= 1)%nat
  /\ (count_events is_save t <= 1)%nat.
Proof.
  cbv zeta.
  assert (H : forall f, (forall ev, quiet ev -> f ev = false) ->
              (forall refs,
                  count_events f (fst (request env topic (prompt topic td hc) refs))
                  <= 1)%nat ->
              (count_events f (fst (generate_post_image env topic style td hc rd))
               <= 1)%nat).
  { intros f Hq Hreq. unfold generate_post_image.
    destruct (negb (truthy (GEMINI_API_KEY env))); [cbn; lia|]. cbv zeta.
    apply (count_bind_le f _ _ 0 1);
      [rewrite (quiet_count f _ Hq (ensure_dirs_quiet env)); lia | intros _].
    apply (count_bind_le f _ _ 0 1);
      [rewrite (quiet_count f _ Hq (loader_quiet env _ _)); lia | intros refs].
    apply (count_bind_le f _ _ 0 1).
    { unfold count_events. cbn [emit fst filter].
      rewrite (Hq (EvImport "google.genai")) by (repeat split). cbn. lia. }
    intros _. destruct (negb (genai_installed env)); [cbn; lia|].
    apply (count_bind_le f _ _ 0 1).
    { unfold count_events. cbn [emit fst filter].
      rewrite (Hq (EvImport "PIL")) by (repeat split). cbn. lia. }
    intros _. destruct (negb (pil_installed env)); [cbn; lia|].
    apply (count_try_le f _ _ 1 0); [apply Hreq | intros e; cbn; lia]. }
  repeat split; apply H;
    try (intros ev (H1 & H2 & H3); assumption);
    try (intros; apply request_counts).
Qed.

(** ** Failures inside the try *)

Lemma preamble_counts f env rd t :
  (forall ev, quiet ev -> f ev = false) ->
  count_events f (preamble env rd ++ t) = count_events f t.
Proof.
  intros Hq. rewrite count_events_app.
  now rewrite (quiet_count f _ Hq (preamble_quiet env rd)).
Qed.

Lemma quiet_not_save ev : quiet ev -> is_save ev = false.
Proof. now intros (_ & _ & H). Qed.

Lemma quiet_not_generate ev : quiet ev -> is_generate ev = false.
Proof. now intros (_ & H & _). Qed.

Lemma quiet_not_client ev : quiet ev -> is_client ev = false.
Proof. now intros (H & _ & _). Qed.

(** X11: when the remote call raises, the call returns the exception's
    text as its error; the service was called once and nothing is saved. *)
Theorem remote_failure_is_reported env topic style td hc rd refs e :
  in_try env rd refs ->
  genai_Client env (GEMINI_API_KEY env) = Ok tt ->
  genai_GenerateContentConfig env = Ok tt ->
  generate_content env (GEMINI_IMAGE_MODEL env)
    (Text (prompt topic td hc) :: map Img refs) = Raise e ->
  let run := generate_post_image env topic style td hc rd in
  snd run = Ok (None, Some (exn_str e))
  /\ count_events is_generate (fst run) = 1%nat
  /\ count_events is_save (fst run) = 0%nat.
Proof.
  intros Htry Hc Hg Hr. cbv zeta.
  rewrite (in_try_run env topic style td hc rd refs Htry), request_run.
  cbv zeta. rewrite Hc, Hg, Hr. cbn [try_except on_exception ret fst snd].
  rewrite (preamble_counts is_generate), (preamble_counts is_save)
    by (apply quiet_not_save || apply quiet_not_generate).
  repeat split.
Qed.

Lemma remote_failure_is_reported_witness :
  let env := Sample.world (Some (lit "k3y")) (Ok tt) (Ok Sample.entries)
               (Raise Edge.ServerError) in
  let run := generate_post_image env Sample.topic [] None None None in
  snd run = Ok (None, Some (lit "503 UNAVAILABLE. The model is overloaded."))
  /\ count_events is_generate (fst run) = 1%nat
  /\ count_events is_save (fst run) = 0%nat.
Proof.
  cbv zeta.
  apply (remote_failure_is_reported _ Sample.topic [] None None None
           [RGBImage [x02]] Edge.ServerError); try reflexivity.
  unfold in_try. repeat split; try (vm_compute; reflexivity).
  vm_compute; discriminate.
Defined.

(** X12: when building the client or the generation config raises, the
    call returns that exception's text and the remote service is never
    called. *)
Theorem setup_failure_is_reported env topic style td hc rd refs e :
  in_try env rd refs ->
  genai_Client env (GEMINI_API_KEY env) = Raise e
  \/ (genai_Client env (GEMINI_API_KEY env) = Ok tt
      /\ genai_GenerateContentConfig env = Raise e) ->
  let run := generate_post_image env topic style td hc rd in
  snd run = Ok (None, Some (exn_str e))
  /\ count_events is_generate (fst run) = 0%nat.
Proof.
  intros Htry H. cbv zeta.
  rewrite (in_try_run env topic style td hc rd refs Htry), request_run.
  cbv zeta.
  destruct H as [Hc | [Hc Hg]]; rewrite Hc; try rewrite Hg;
    cbn [try_except on_exception ret fst snd];
    rewrite (preamble_counts is_generate) by apply quiet_not_generate;
    repeat split.
Qed.

Lemma setup_failure_is_reported_witness :
  let bad_key := Exn "ValueError" (lit "Invalid API key format") in
  let env :=
    {| os_getenv := os_getenv (Sample.good Sample.flat_response);
       BASE_DIR := lit "/srv/tekspot";
       fs_mkdir := fun _ => Ok tt;
       fs_exists := fun _ => false;
       fs_iterdir := fun _ => Ok [];
       pil_installed := true;
       genai_installed := true;
       unicode_isalnum := fun _ => false;
       genai_Client := fun _ => Raise bad_key;
       genai_GenerateContentConfig := Ok tt;
       generate_content := fun _ _ => Ok Sample.flat_response;
       b64decode := Edge.lenient_b64decode;
       time_time := 0%Z;
       PILImage_open := fun b => Ok (RGBImage b);
       image_save := fun _ _ => Ok tt |} in
  let run := generate_post_image env Sample.topic [] None None None in
  snd run = Ok (None, Some (lit "Invalid API key format"))
  /\ count_events is_generate (fst run) = 0%nat.
Proof.
  cbv zeta.
  apply (setup_failure_is_reported _ Sample.topic [] None None None []
           (Exn "ValueError" (lit "Invalid API key format"))).
  - unfold in_try. repeat split; try (vm_compute; reflexivity).
    vm_compute; discriminate.
  - left. reflexivity.
Defined.

(** X13: once image bytes were found, the call returns the path exactly
    when the bytes open as an image and the save succeeds; if either step
    raises, it returns that exception's text and no path. *)
Theorem persistence_outcome env topic style td hc rd refs response ps b :
  reaches env topic td hc rd refs response ->
  parts response = Ok ps ->
  image_bytes env ps = Ok (Some b) ->
  b <> [] ->
  snd (generate_post_image env topic style td hc rd)
  = match PILImage_open env b with
    | Raise e => Ok (None, Some (exn_str e))
    | Ok img =>
        match image_save env img (fpath env topic (time_time env)) with
        | Raise e => Ok (None, Some (exn_str e))
        | Ok _ => Ok (Some (fpath env topic (time_time env)), None)
        end
    end.
Proof.
  intros Hreach Hps Hb Hne.
  rewrite (reaches_outcome _ _ style _ _ _ _ _ Hreach).
  rewrite (save_response_found env topic response ps b Hps Hb Hne), persist_run.
  destruct (PILImage_open env b) as [img|e]; [|reflexivity].
  cbv zeta. destruct (image_save env img _); reflexivity.
Qed.

Lemma persistence_outcome_witness :
  let env := Edge.variant (Sample.good Sample.flat_response) true true
               Edge.lenient_b64decode (fun b => Ok (RGBImage b))
               (fun _ _ => Raise Edge.OSError_no_space) in
  snd (generate_post_image env Sample.topic [] None None None)
  = Ok (None, Some (lit "[Errno 28] No space left on device")).
Proof.
  cbv zeta.
  refine (persistence_outcome _ Sample.topic [] None None None
            [RGBImage [x02]] Sample.flat_response
            [Sample.text_part; Sample.inline_part] Sample.png_magic _ _ _ _).
  - unfold reaches. repeat split; try (vm_compute; reflexivity).
    vm_compute; discriminate.
  - reflexivity.
  - reflexivity.
  - discriminate.
Defined.

(** ** What a returned path guarantees *)

Lemma saved_last_app env p t0 t : saved_last env p t -> saved_last env p (t0 ++ t).
Proof.
  intros (t1 & data & img & -> & H). exists (t0 ++ t1), data, img.
  now rewrite app_assoc.
Qed.

Lemma success_saves_bind {A} env (m : M A) (k : A -> M result) :
  (forall a, success_saves env (k a)) -> success_saves env (bind m k).
Proof.
  intros Hk p e. rewrite snd_bind, fst_bind.
  destruct (snd m) as [a|x]; [|discriminate].
  intros H. apply saved_last_app. now apply (Hk a p e).
Qed.

Lemma success_saves_error env t msg : success_saves env (t, Ok (None, msg)).
Proof. intros p e H. discriminate H. Qed.

Lemma success_saves_raise env t x : success_saves env (t, Raise x).
Proof. intros p e H. discriminate H. Qed.

Lemma success_saves_persist env topic data :
  data <> [] -> success_saves env (persist env topic data).
Proof.
  intros Hne p e. rewrite persist_run.
  destruct (PILImage_open env data) as [img|x] eqn:Ho; [|discriminate].
  cbv zeta. destruct (image_save env img _) as [[]|x] eqn:Hs; [|discriminate].
  cbn [fst snd]. intros [= <- <-].
  now exists [], data, img.
Qed.

Lemma success_saves_request env topic p refs :
  success_saves env (request env topic p refs).
Proof.
  rewrite request_run. cbv zeta.
  destruct (genai_Client env _); [|apply success_saves_raise].
  destruct (genai_GenerateContentConfig env); [|apply success_saves_raise].
  destruct (generate_content env _ _) as [response|x];
    [|apply success_saves_raise].
  intros q e. cbn [fst snd]. intros H. apply saved_last_app. revert q e H.
  change (success_saves env (save_response env topic response)).
  rewrite save_response_run.
  destruct (parts response) as [ps|x]; [|apply success_saves_raise].
  destruct (image_bytes env ps) as [[[|c b]|]|x];
    try apply success_saves_error; try apply success_saves_raise.
  now apply success_saves_persist.
Qed.

Lemma success_saves_call env topic style td hc rd :
  success_saves env (generate_post_image env topic style td hc rd).
Proof.
  unfold generate_post_image.
  destruct (negb (truthy (GEMINI_API_KEY env))); [apply success_saves_error|].
  cbv zeta. do 3 (apply success_saves_bind; intro).
  destruct (negb (genai_installed env)); [apply success_saves_error|].
  apply success_saves_bind; intro.
  destruct (negb (pil_installed env)); [apply success_saves_error|].
  intros p e. rewrite snd_try_except, fst_try_except.
  destruct (snd (request _ _ _ _)) as [r|x] eqn:Hr; [|discriminate].
  intros [= ->]. exact (success_saves_request env topic _ _ p e Hr).
Qed.

(** X14: a path is returned only for a file that was just written: if the
    call returns a path, the last operations it performed are the clock read
    and the successful save of non-empty bytes at exactly that path, the
    error arm is empty, and the call began by creating the data and output
    directories. *)
Theorem returned_path_was_saved env topic style td hc rd (p : path)
    (e : option pystr) :
  snd (generate_post_image env topic style td hc rd) = Ok (Some p, e) ->
  e = None
  /\ saved_last env p (fst (generate_post_image env topic style td hc rd))
  /\ exists t, fst (generate_post_image env topic style td hc rd)
               = EvMkdir (DATA_DIR env) :: EvMkdir (OUTPUT_DIR env) :: t.
Proof.
  intros H. split; [|split].
  - pose proof (generate_post_image_result env topic style td hc rd) as R.
    unfold returns_only in R. rewrite H in R. now inversion R.
  - now apply (success_saves_call env topic style td hc rd p e).
  - revert H. unfold generate_post_image.
    destruct (negb (truthy (GEMINI_API_KEY env))); [discriminate|].
    destruct (snd (ensure_dirs env)) as [[]|x] eqn:Hd.
    + rewrite (bind_ok _ _ tt Hd), (ensure_dirs_ok_trace env Hd).
      intros _. cbn [fst app]. eexists. reflexivity.
    + rewrite (bind_raise _ _ x Hd). discriminate.
Qed.

Lemma returned_path_was_saved_witness :
  let env := Sample.good Sample.nested_response in
  let run := generate_post_image env Sample.topic [] None None None in
  let p := fpath env Sample.topic (time_time env) in
  snd run = Ok (Some p, None)
  /\ @None pystr = None
  /\ saved_last env p (fst run)
  /\ exists t, fst run = EvMkdir (DATA_DIR env) :: EvMkdir (OUTPUT_DIR env) :: t.
Proof.
  cbv zeta. split; [vm_compute; reflexivity|].
  apply (returned_path_was_saved (Sample.good Sample.nested_response)
           Sample.topic [] None None None).
  vm_compute; reflexivity.
Defined.

(** ** Missing packages *)

Lemma loader_without_pil env d n :
  pil_installed env = false ->
  snd (_load_reference_images env (Some d) n) = Ok [].
Proof.
  intros H. unfold _load_reference_images. rewrite H.
  destruct (fs_exists env d); reflexivity.
Qed.

(** X15: when either package is missing the call returns the
    install hint for the remote client, also when the missing package is the
    imaging one, and neither builds a client nor calls the service.  Without
    the imaging package nothing else is needed for that; without the remote
    client the reference images must have loaded. *)
Theorem missing_package_is_reported env topic style td hc rd :
  GEMINI_API_KEY env <> [] ->
  snd (ensure_dirs env) = Ok tt ->
  pil_installed env = false
  \/ (genai_installed env = false
      /\ exists refs,
           snd (_load_reference_images env (Some (ref_dir env rd)) 2) = Ok refs) ->
  let run := generate_post_image env topic style td hc rd in
  snd run = Ok (None, Some (lit "Install google-genai: pip install google-genai"))
  /\ count_events is_client (fst run) = 0%nat
  /\ count_events is_generate (fst run) = 0%nat.
Proof.
  intros Hkey Hdirs H. cbv zeta.
  assert (Hrefs : exists refs,
             snd (_load_reference_images env (Some (ref_dir env rd)) 2) = Ok refs).
  { destruct H as [Hpil | [_ Hrefs]]; [|exact Hrefs].
    exists []. now apply loader_without_pil. }
  destruct Hrefs as [refs Hrefs].
  assert (Hmiss : genai_installed env = false \/ pil_installed env = false)
    by (destruct H as [H | [H _]]; auto).
  unfold generate_post_image. rewrite (key_truthy env Hkey). cbn [negb]. cbv zeta.
  rewrite (bind_ok _ _ tt Hdirs). cbn [fst snd].
  rewrite (bind_ok _ _ refs Hrefs). cbn [fst snd].
  rewrite bind_emit. cbv beta.
  pose proof (ensure_dirs_quiet env) as Q1.
  pose proof (loader_quiet env (Some (ref_dir env rd)) 2) as Q2.
  unfold performs_only in Q1, Q2.
  destruct (genai_installed env).
  - destruct Hmiss as [Hg | Hp]; [discriminate|].
    cbn [negb]. rewrite bind_emit, Hp. cbn [negb ret fst snd].
    rewrite !count_events_app,
      (quiet_count is_client _ quiet_not_client Q1),
      (quiet_count is_client _ quiet_not_client Q2),
      (quiet_count is_generate _ quiet_not_generate Q1),
      (quiet_count is_generate _ quiet_not_generate Q2).
    repeat split.
  - cbn [negb ret fst snd].
    rewrite !count_events_app,
      (quiet_count is_client _ quiet_not_client Q1),
      (quiet_count is_client _ quiet_not_client Q2),
      (quiet_count is_generate _ quiet_not_generate Q1),
      (quiet_count is_generate _ quiet_not_generate Q2).
    repeat split.
Qed.

Lemma missing_package_is_reported_witness :
  let env := Edge.variant (Sample.good Sample.flat_response) false true
               Edge.lenient_b64decode (fun b => Ok (RGBImage b))
               (fun _ _ => Ok tt) in
  let run := generate_post_image env Sample.topic [] None None None in
  snd run = Ok (None, Some (lit "Install google-genai: pip install google-genai"))
  /\ count_events is_client (fst run) = 0%nat
  /\ count_events is_generate (fst run) = 0%nat.
Proof.
  cbv zeta. apply missing_package_is_reported.
  - vm_compute; discriminate.
  - reflexivity.
  - left. reflexivity.
Defined.

(** ** Odd responses *)

Lemma parts_none response :
  resp_parts response = PyNone
  \/ (resp_parts response = NoAttr /\ nested_parts response = PyNone) ->
  parts response = Raise TypeError_not_iterable.
Proof.
  unfold parts, nested_parts. intros [H | [H Hn]]; rewrite H; [reflexivity|].
  destruct (resp_candidates response) as [| |[|cand cands]]; try discriminate.
  destruct (cand_content cand) as [| |content]; try discriminate.
  now rewrite Hn.
Qed.

(** X16: a response whose part list is present but [None], at the top level
    or under the first candidate when there is no top-level list, does not
    give the no-image error: the call returns the text of the [TypeError]
    that iterating [None] raises. *)
Theorem none_parts_is_type_error env topic style td hc rd refs response :
  reaches env topic td hc rd refs response ->
  resp_parts response = PyNone
  \/ (resp_parts response = NoAttr /\ nested_parts response = PyNone) ->
  snd (generate_post_image env topic style td hc rd)
  = Ok (None, Some (lit "'NoneType' object is not iterable")).
Proof.
  intros Hreach H.
  rewrite (reaches_outcome _ _ style _ _ _ _ _ Hreach), save_response_run.
  now rewrite (parts_none response H).
Qed.

Lemma none_parts_is_type_error_witness :
  snd (generate_post_image (Sample.good Edge.none_response) Sample.topic []
         None None None)
  = Ok (None, Some (lit "'NoneType' object is not iterable")).
Proof.
  apply (none_parts_is_type_error _ Sample.topic [] None None None
           [RGBImage [x02]] Edge.none_response).
  - unfold reaches. repeat split; try (vm_compute; reflexivity).
    vm_compute; discriminate.
  - left. reflexivity.
Defined.

(** X17: the search stops at the first part that yields bytes even when
    they are empty (inline text with nothing to decode): the call then
    returns the no-image error, whatever the later parts carry. *)
Theorem empty_bytes_end_the_search env topic style td hc rd refs response
    pre part post :
  reaches env topic td hc rd refs response ->
  chosen_parts response (pre ++ part :: post) ->
  Forall (yields_nothing env) pre ->
  yields env part [] ->
  snd (generate_post_image env topic style td hc rd)
  = Ok (None, Some (lit "No image in Gemini response")).
Proof.
  intros Hreach Hps Hpre Hy. apply chosen_parts_sound in Hps.
  rewrite (reaches_outcome _ _ style _ _ _ _ _ Hreach), save_response_run, Hps.
  now rewrite (image_bytes_first env pre part post [] Hpre Hy).
Qed.

Lemma empty_bytes_end_the_search_witness :
  let env := Edge.variant (Sample.good Edge.hollow_response) true true
               Edge.lenient_b64decode (fun b => Ok (RGBImage b))
               (fun _ _ => Ok tt) in
  usable env Sample.inline_part = Some Sample.png_magic
  /\ snd (generate_post_image env Sample.topic [] None None None)
     = Ok (None, Some (lit "No image in Gemini response")).
Proof.
  cbv zeta. split; [reflexivity|].
  refine (empty_bytes_end_the_search _ Sample.topic [] None None None
            [RGBImage [x02]] Edge.hollow_response [] Edge.hollow_part
            [Sample.inline_part] _ _ _ _).
  - unfold reaches. repeat split; try (vm_compute; reflexivity).
    vm_compute; discriminate.
  - apply chosen_flat. reflexivity.
  - constructor.
  - eapply yields_inline; reflexivity.
Defined.

(** ** More on file names *)

(** X18: sanitising keeps the length of the first 50 characters and is
    idempotent: a token that went through it once is left unchanged. *)
Theorem safe_name_idempotent env (topic : pystr) :
  safe_name env (safe_name env topic) = safe_name env topic
  /\ List.length (safe_name env topic) = Nat.min 50 (List.length topic).
Proof.
  split.
  - unfold safe_name at 1.
    rewrite (firstn_all2 (n:=50) (safe_name env topic) (safe_name_length env topic)).
    unfold safe_name. rewrite map_map. apply map_ext.
    intros c. cbv beta.
    destruct (isalnum env c || in_space_hyphen_underscore c) eqn:E.
    + now rewrite E.
    + now destruct (isalnum env 95 || in_space_hyphen_underscore 95).
  - unfold safe_name. now rewrite length_map, length_firstn.
Qed.

Lemma lit_inj a b : lit a = lit b -> a = b.
Proof.
  unfold lit. intros H.
  rewrite <- (string_of_list_ascii_of_string a),
          <- (string_of_list_ascii_of_string b).
  f_equal. revert H.
  generalize (list_ascii_of_string a) (list_ascii_of_string b).
  induction l as [|x l IH]; intros [|y l']; simpl; try discriminate; trivial.
  intros [= Hxy Hl]. f_equal; [|now apply IH].
  rewrite <- (ascii_N_embedding x), <- (ascii_N_embedding y). now rewrite Hxy.
Qed.

Lemma to_int_proper z : Z.to_int z <> Decimal.Pos Decimal.Nil
                        /\ Z.to_int z <> Decimal.Neg Decimal.Nil.
Proof.
  destruct z as [|p|p]; cbn; split; try discriminate;
    intros [= H]; exact (Unsigned.to_uint_nonnil p H).
Qed.

Lemma str_of_int_inj a b : str_of_int a = str_of_int b -> a = b.
Proof.
  unfold str_of_int. intros H. apply lit_inj in H.
  apply DecimalZ.to_int_inj.
  destruct (to_int_proper a) as [Ha1 Ha2], (to_int_proper b) as [Hb1 Hb2].
  pose proof (NilZero.isi (Z.to_int a) Ha1 Ha2) as Ia.
  pose proof (NilZero.isi (Z.to_int b) Hb1 Hb2) as Ib.
  rewrite H in Ia. rewrite Ia in Ib. now injection Ib.
Qed.

Lemma uint_no_underscore d : ~ In 95 (lit (NilEmpty.string_of_uint d)).
Proof.
  induction d; cbn; try tauto; intros [H|H]; try discriminate H; tauto.
Qed.

Lemma str_of_int_no_underscore z : ~ In 95 (str_of_int z).
Proof.
  unfold str_of_int, NilZero.string_of_int, NilZero.string_of_uint.
  destruct (Z.to_int z) as [d|d].
  - destruct d; try apply uint_no_underscore. cbn. intros [H|[]]. discriminate H.
  - destruct d; cbn; intros [H|H]; try discriminate H;
      try (destruct H as [H|[]]; discriminate H).
    all: match goal with
         | H : _ \/ In 95 (map _ (list_ascii_of_string (NilEmpty.string_of_uint ?d))) |- _ =>
             destruct H as [H|H]; [discriminate H | exact (uint_no_underscore d H)]
         end.
Qed.

(** The last separator of a name is found without ambiguity. *)
Lemma split_at_last_separator (c : N) s1 s2 d1 d2 :
  ~ In c d1 -> ~ In c d2 ->
  s1 ++ c :: d1 = s2 ++ c :: d2 -> s1 = s2 /\ d1 = d2.
Proof.
  intros H1 H2. revert s2.
  induction s1 as [|a s1 IH]; intros [|b s2]; cbn [app]; intros E.
  - injection E as E. now split.
  - injection E as _ E. exfalso. apply H1. rewrite E.
    apply in_or_app. right. now left.
  - injection E as _ E. exfalso. apply H2. rewrite <- E.
    apply in_or_app. right. now left.
  - injection E as -> E. destruct (IH s2 E) as [-> ->]. now split.
Qed.

(** X19: two calls aim at the same file exactly when their topics sanitise
    to the same token and they fall in the same second; otherwise the paths
    differ. *)
Theorem same_path_iff env (topic1 topic2 : pystr) (now1 now2 : Z) :
  fpath env topic1 now1 = fpath env topic2 now2
  <-> safe_name env topic1 = safe_name env topic2 /\ now1 = now2.
Proof.
  split; [|intros [Hs ->]; unfold fpath; now rewrite Hs].
  unfold fpath, path_join, file_name. intros H.
  do 3 apply app_inv_head in H.
  change (lit "_") with [95] in H.
  rewrite !(app_assoc (safe_name _ _)), !(app_assoc _ (str_of_int _)) in H.
  apply app_inv_tail in H. rewrite <- !app_assoc in H. cbn [app] in H.
  apply split_at_last_separator in H; try apply str_of_int_no_underscore.
  destruct H as [Hs Hn]. split; [exact Hs | now apply str_of_int_inj].
Qed.

(** ** Where things live *)

(** X20: the data, output and reference directories are three different
    places under the installation directory, and a generated file lies in
    neither the default reference directory nor the data directory: by
    default an output never comes back as a reference image and never
    replaces the topics workbook. *)
Theorem directories_are_apart env (topic name : pystr) (now : Z) :
  DATA_DIR env <> OUTPUT_DIR env
  /\ DATA_DIR env <> IMAGES_DIR env
  /\ OUTPUT_DIR env <> IMAGES_DIR env
  /\ fpath env topic now <> path_join (IMAGES_DIR env) name
  /\ fpath env topic now <> path_join (DATA_DIR env) name
  /\ fpath env topic now <> TOPICS_EXCEL env.
Proof.
  unfold TOPICS_EXCEL, fpath, DATA_DIR, OUTPUT_DIR, IMAGES_DIR, path_join.
  repeat split; intros H; rewrite <- ?app_assoc in H;
    do 2 apply app_inv_head in H; discriminate H.
Qed.

(** ** What is sent out *)

Lemma returns_only_and {A} (P Q : A -> Prop) (m : M A) :
  returns_only P m -> returns_only Q m -> returns_only (fun a => P a /\ Q a) m.
Proof. unfold returns_only. destruct (snd m); [now split | trivial]. Qed.

Lemma quiet_performs {A} (Q : event -> Prop) (m : M A) :
  (forall ev, quiet ev -> Q ev) -> performs_only quiet m -> performs_only Q m.
Proof. intros H. apply Forall_impl. exact H. Qed.

Lemma save_response_quiet_calls env topic response :
  Forall (fun ev => is_client ev = false /\ is_generate ev = false)
    (fst (save_response env topic response)).
Proof.
  rewrite save_response_run.
  destruct (parts response) as [ps|e]; [|constructor].
  destruct (image_bytes env ps) as [[[|c b]|]|e]; try constructor.
  rewrite persist_run.
  destruct (PILImage_open env _); [|repeat constructor]. cbv zeta.
  destruct (image_save env _ _); repeat constructor.
Qed.

(** X21: the request sent to the remote service names the configured image
    model and carries the assembled prompt followed by exactly the reference
    images the loader returned, so at most three items. *)
Theorem remote_call_contents env topic style td hc rd :
  performs_only
    (remote_call env (prompt topic td hc)
       (snd (_load_reference_images env (Some (ref_dir env rd)) 2)))
    (generate_post_image env topic style td hc rd).
Proof.
  assert (Hq : forall ev, quiet ev ->
                 remote_call env (prompt topic td hc)
                   (snd (_load_reference_images env (Some (ref_dir env rd)) 2)) ev).
  { intros [] (_ & H & _); try exact I. discriminate H. }
  unfold generate_post_image.
  destruct (negb (truthy (GEMINI_API_KEY env))); [constructor|]. cbv zeta.
  apply performs_only_bind;
    [apply (quiet_performs _ _ Hq), ensure_dirs_quiet | intros _].
  apply (performs_only_bind_with
           (fun refs => snd (_load_reference_images env
                               (Some (ref_dir env rd)) 2) = Ok refs
                        /\ (List.length refs <= 2)%nat)).
  - apply returns_only_and;
      [apply returns_only_self | apply load_reference_images_length].
  - apply (quiet_performs _ _ Hq), loader_quiet.
  - intros refs [Hrefs Hlen]. unfold on_exception. effects.
    unfold performs_only. rewrite request_run. cbv zeta.
    destruct (genai_Client env _); [|repeat constructor].
    destruct (genai_GenerateContentConfig env); [|repeat constructor].
    assert (Hcall : remote_call env (prompt topic td hc)
                      (snd (_load_reference_images env (Some (ref_dir env rd)) 2))
                      (EvGenerate (GEMINI_IMAGE_MODEL env)
                         (Text (prompt topic td hc) :: map Img refs))).
    { split; [reflexivity|]. exists refs. repeat split; [exact Hrefs|].
      cbn [List.length]. rewrite length_map. lia. }
    destruct (generate_content env _ _) as [response|e]; cbn [fst app];
      (constructor; [exact I|]); (constructor; [exact Hcall|]);
      [|constructor].
    eapply Forall_impl; [|apply save_response_quiet_calls].
    intros [] [_ H]; try exact I. discriminate H.
Qed.

(** X22: the key handed to the client is the configured one, is not empty
    and carries no white space at either end; the search key of the
    configuration is stripped in the same way. *)
Theorem client_key_is_clean env topic style td hc rd :
  performs_only (client_key env) (generate_post_image env topic style td hc rd)
  /\ trimmed (TAVILY_API_KEY env).
Proof.
  split; [|apply strip_trimmed].
  assert (Hq : forall ev, quiet ev -> client_key env ev).
  { intros [] (H & _); try exact I. discriminate H. }
  unfold generate_post_image.
  destruct (truthy (GEMINI_API_KEY env)) eqn:Hkey; [|constructor].
  cbn [negb]. cbv zeta.
  apply performs_only_bind;
    [apply (quiet_performs _ _ Hq), ensure_dirs_quiet | intros _].
  apply performs_only_bind;
    [apply (quiet_performs _ _ Hq), loader_quiet | intros refs].
  unfold on_exception. effects.
  unfold performs_only. rewrite request_run. cbv zeta.
  assert (Hclient : client_key env (EvClient (GEMINI_API_KEY env))).
  { split; [reflexivity|]. split; [|apply strip_trimmed].
    intros E. rewrite E in Hkey. discriminate Hkey. }
  destruct (genai_Client env _);
    [|cbn [fst]; constructor; [exact Hclient | constructor]].
  destruct (genai_GenerateContentConfig env);
    [|cbn [fst]; constructor; [exact Hclient | constructor]].
  destruct (generate_content env _ _) as [response|e]; cbn [fst app];
    (constructor; [exact Hclient|]); (constructor; [exact I|]);
    [|constructor].
  eapply Forall_impl; [|apply save_response_quiet_calls].
  intros [] [H _]; try exact I. discriminate H.
Qed.

(** X23: a reference directory that does not exist is no failure: the
    loader returns no image without listing anything, and the remote service
    is called with the prompt alone. *)
Theorem missing_reference_dir_proceeds env topic style td hc rd :
  GEMINI_API_KEY env <> [] ->
  snd (ensure_dirs env) = Ok tt ->
  fs_exists env (ref_dir env rd) = false ->
  genai_installed env = true -> pil_installed env = true ->
  genai_Client env (GEMINI_API_KEY env) = Ok tt ->
  genai_GenerateContentConfig env = Ok tt ->
  _load_reference_images env (Some (ref_dir env rd)) 2
  = ([EvExists (ref_dir env rd)], Ok [])
  /\ In (EvGenerate (GEMINI_IMAGE_MODEL env) [Text (prompt topic td hc)])
       (fst (generate_post_image env topic style td hc rd))
  /\ snd (generate_post_image env topic style td hc rd)
     = match generate_content env (GEMINI_IMAGE_MODEL env)
               [Text (prompt topic td hc)] with
       | Ok response =>
           snd (try_except (save_response env topic response) on_exception)
       | Raise e => Ok (None, Some (exn_str e))
       end.
Proof.
  intros Hkey Hdirs Hex Hgenai Hpil Hclient Hconfig.
  assert (Hload : _load_reference_images env (Some (ref_dir env rd)) 2
                  = ([EvExists (ref_dir env rd)], Ok [])).
  { unfold _load_reference_images. now rewrite Hex. }
  split; [exact Hload|].
  assert (Htry : in_try env rd []).
  { unfold in_try. rewrite Hload. now repeat split. }
  rewrite (in_try_run env topic style td hc rd [] Htry), request_run.
  cbv zeta. rewrite Hclient, Hconfig. cbn [map fst snd].
  destruct (generate_content env _ _) as [response|e].
  - split.
    + apply in_or_app. right. rewrite fst_try_except. cbn [fst snd].
      destruct (snd (save_response env topic response));
        [|apply in_or_app; left]; right; now left.
    + now rewrite !snd_try_except.
  - split; [|reflexivity].
    apply in_or_app. right. cbn. right. now left.
Qed.

Lemma missing_reference_dir_proceeds_witness :
  let env :=
    {| os_getenv := os_getenv (Sample.good Sample.flat_response);
       BASE_DIR := lit "/srv/tekspot";
       fs_mkdir := fun _ => Ok tt;
       fs_exists := fun _ => false;
       fs_iterdir := fun _ => Raise Edge.FileNotFoundError;
       pil_installed := true;
       genai_installed := true;
       unicode_isalnum := fun _ => false;
       genai_Client := fun _ => Ok tt;
       genai_GenerateContentConfig := Ok tt;
       generate_content := fun _ _ => Ok Sample.flat_response;
       b64decode := Edge.lenient_b64decode;
       time_time := 1762160400%Z;
       PILImage_open := fun b => Ok (RGBImage b);
       image_save := fun _ _ => Ok tt |} in
  In (EvGenerate (GEMINI_IMAGE_MODEL env) [Text (prompt Sample.topic None None)])
    (fst (generate_post_image env Sample.topic [] None None None))
  /\ snd (generate_post_image env Sample.topic [] None None None)
     = Ok (Some (fpath env Sample.topic (time_time env)), None).
Proof.
  cbv zeta.
  match goal with |- In _ (fst (generate_post_image ?env _ _ _ _ _)) /\ _ =>
    pose proof (missing_reference_dir_proceeds env Sample.topic [] None None None)
      as H
  end.
  destruct H as (_ & Hin & Hout);
    try reflexivity; try (vm_compute; discriminate).
  split; [exact Hin|]. vm_compute; reflexivity.
Defined.
